(** * texit: marker-prefixed text lines to TeX markup

    A shallow embedding of [texit.py] and the properties of its line
    transformer [add_tex_syntax], of [process_files] and of the driver [main].

    Conventions of the embedding.
    - A Python [str] is a Rocq [string]; a character is one of the code points
      U+0000..U+00FF.  The character classes of the regular expressions
      ([\w], [.]) and [str.lower] are the ones Python has on these code points.
    - [re.match] is an ordered backtracking matcher over the syntax tree that
      [compile] produces from the pattern text, so that the patterns are the
      strings the program builds.
    - Exceptions are values of [exn]; effectful code lives in a state and
      exception monad over [world] (file contents, pending console input,
      console output). *)

From Stdlib Require Import String Ascii List ZArith Lia Bool.
From stdpp Require Import gmap strings.
From Equations Require Import Equations.
Import ListNotations.
Local Open Scope string_scope.
#[local] Arguments String.append : simpl nomatch.

(** ** Python values and exceptions *)

Inductive exn : Type :=
| AttributeError
| KeyError
| TypeError
| IndexError
| EOFError
| FileNotFoundError
| ReError
| SystemExit (arg : Z + string).

Inductive result (A : Type) : Type :=
| Ok (a : A)
| Raise (e : exn).
Arguments Ok {A} a.
Arguments Raise {A} e.

Definition rbind {A B} (x : result A) (f : A -> result B) : result B :=
  match x with
  | Ok a => f a
  | Raise e => Raise e
  end.

Declare Scope py_scope.
Delimit Scope py_scope with py.
Notation "x <- e ;; k" := (rbind e (fun x => k))
  (at level 100, e at next level, right associativity) : py_scope.

(** ** Characters and strings *)

Definition NL : ascii := "010"%char.
Definition CR : ascii := "013"%char.
Definition SP : ascii := " "%char.
Definition nl : string := String NL "".

Definition code (c : ascii) : nat := nat_of_ascii c.

Definition between (lo hi n : nat) : bool := (lo <=? n)%nat && (n <=? hi)%nat.

(** [str.isalnum() or c == '_'] on U+0000..U+00FF, which is what [\w] matches
    in a [str] pattern. *)
Definition is_word (c : ascii) : bool :=
  let n := code c in
  between 48 57 n || between 65 90 n || (n =? 95)%nat || between 97 122 n
  || (n =? 170)%nat || (n =? 178)%nat || (n =? 179)%nat || (n =? 181)%nat
  || (n =? 185)%nat || (n =? 186)%nat || between 188 190 n
  || between 192 214 n || between 216 246 n || between 248 255 n.

(** [str.lower] on one character of U+0000..U+00FF. *)
Definition lower_char (c : ascii) : ascii :=
  let n := code c in
  if between 65 90 n || between 192 214 n || between 216 222 n
  then ascii_of_nat (n + 32) else c.

Fixpoint lower (s : string) : string :=
  match s with
  | "" => ""
  | String c s' => String (lower_char c) (lower s')
  end.

(** [needle in hay] on strings: substring containment. *)
Fixpoint str_in (needle hay : string) : bool :=
  String.prefix needle hay ||
  match hay with
  | "" => false
  | String _ hay' => str_in needle hay'
  end.

(** [''.join(xs)]. *)
Definition join (xs : list string) : string := fold_right String.append "" xs.

(** ** Regular expressions: the fragment of [re] the program uses *)

Module Re.

(** One item of a character set. *)
Inductive citem : Type :=
| CChar (c : ascii)      (* a literal character *)
| CWord                  (* \w *)
| CDot.                  (* . outside a class: anything but a newline *)

Definition charset : Type := list citem.

Definition citem_mem (i : citem) (c : ascii) : bool :=
  match i with
  | CChar d => Ascii.eqb c d
  | CWord => is_word c
  | CDot => negb (Ascii.eqb c NL)
  end.

Definition cs_mem (cs : charset) (c : ascii) : bool :=
  existsb (fun i => citem_mem i c) cs.

Inductive regex : Type :=
| Eps                                  (* the empty pattern *)
| One (cs : charset)                   (* one character of a set *)
| Bol                                  (* ^ *)
| Eol                                  (* $ *)
| Seq (r1 r2 : regex)
| Alt (r1 r2 : regex)                  (* r1|r2, r1 tried first *)
| Group (i : nat) (r : regex)          (* capturing group number i *)
| Opt (r : regex)                      (* r? , greedy *)
| Star (greedy : bool) (cs : charset). (* c* and c*? on a one-character item *)

(** State of a match attempt: characters consumed so far, the text still
    ahead, and the groups captured so far. *)
Record mstate : Type := MState {
  pos : nat;
  rest : string;
  caps : gmap nat string
}.

Definition set_cap (i : nat) (w : string) (st : mstate) : mstate :=
  MState (pos st) (rest st) (<[i := w]> (caps st)).

(** Greedy repetition: as many characters as possible first, giving one
    back at a time when what follows fails. *)
Fixpoint rep_max {A} (cs : charset) (s : string)
    (k : string -> string -> option A) : option A :=
  match s with
  | String c s' =>
      if cs_mem cs c then
        match rep_max cs s' (fun w r => k (String c w) r) with
        | Some m => Some m
        | None => k "" s
        end
      else k "" s
  | "" => k "" s
  end.

(** Lazy repetition: as few characters as possible first. *)
Fixpoint rep_min {A} (cs : charset) (s : string)
    (k : string -> string -> option A) : option A :=
  match k "" s with
  | Some m => Some m
  | None =>
      match s with
      | String c s' =>
          if cs_mem cs c then rep_min cs s' (fun w r => k (String c w) r)
          else None
      | "" => None
      end
  end.

(** [run r st k]: match [r] at [st], then continue with [k w st'] where [w]
    is the text [r] consumed; alternatives are explored in Python's order
    and the first complete success wins. *)
Fixpoint run (r : regex) (st : mstate)
    (k : string -> mstate -> option mstate) : option mstate :=
  match r with
  | Eps => k "" st
  | One cs =>
      match rest st with
      | String c s' =>
          if cs_mem cs c
          then k (String c "") (MState (S (pos st)) s' (caps st))
          else None
      | "" => None
      end
  | Bol => if (pos st =? 0)%nat then k "" st else None
  | Eol =>
      match rest st with
      | "" => k "" st
      | String c "" => if Ascii.eqb c NL then k "" st else None
      | _ => None
      end
  | Seq r1 r2 =>
      run r1 st (fun w1 st1 => run r2 st1 (fun w2 st2 => k (w1 ++ w2) st2))
  | Alt r1 r2 =>
      match run r1 st k with
      | Some m => Some m
      | None => run r2 st k
      end
  | Group i r1 => run r1 st (fun w st1 => k w (set_cap i w st1))
  | Opt r1 =>
      match run r1 st k with
      | Some m => Some m
      | None => k "" st
      end
  | Star true cs =>
      rep_max cs (rest st)
        (fun w s' => k w (MState (pos st + String.length w) s' (caps st)))
  | Star false cs =>
      rep_min cs (rest st)
        (fun w s' => k w (MState (pos st + String.length w) s' (caps st)))
  end.

(** *** Pattern syntax

    [compile] reads the pattern text.  It covers literals, escapes of
    punctuation, [\w], [\n], [.], [^], [$], character classes without ranges
    or negation, plain and named groups, [|], and the quantifiers [?], [*]
    and [*?] (the last two on a one-character item).  Anything else is
    refused, which [re_match] reports as [ReError]. *)

Record pgroups : Type := PGroups {
  next_group : nat;
  named : list (string * nat)
}.

Fixpoint strip_prefix (pre s : string) : option string :=
  match pre, s with
  | "", _ => Some s
  | String a pre', String b s' =>
      if Ascii.eqb a b then strip_prefix pre' s' else None
  | String _ _, "" => None
  end.

Definition is_ascii_alnum (c : ascii) : bool :=
  let n := code c in
  between 48 57 n || between 65 90 n || between 97 122 n.

Definition escape_item (c : ascii) : option citem :=
  if Ascii.eqb c "w" then Some CWord
  else if Ascii.eqb c "n" then Some (CChar NL)
  else if is_ascii_alnum c then None
  else Some (CChar c).

(** The items of a class up to the closing bracket. *)
Fixpoint parse_class (p : string) (first : bool) (acc : charset)
    : option (charset * string) :=
  match p with
  | "" => None
  | String c p' =>
      if Ascii.eqb c "]" then
        if first then None else Some (acc, p')
      else if Ascii.eqb c "^" && first then None
      else if Ascii.eqb c "\" then
        match p' with
        | "" => None
        | String e p'' =>
            match escape_item e with
            | None => None
            | Some it =>
                match strip_prefix "-" p'' with
                | Some r =>
                    match strip_prefix "]" r with
                    | Some r' => Some ((acc ++ [it; CChar "-"])%list, r')
                    | None => None
                    end
                | None => parse_class p'' false (acc ++ [it])%list
                end
            end
        end
      else
        match strip_prefix "-" p' with
        | Some r =>
            match strip_prefix "]" r with
            | Some r' => Some ((acc ++ [CChar c; CChar "-"])%list, r')
            | None => None
            end
        | None => parse_class p' false (acc ++ [CChar c])%list
        end
  end.

(** A group name up to the closing angle bracket. *)
Fixpoint parse_name (p : string) : option (string * string) :=
  match p with
  | "" => None
  | String c p' =>
      if Ascii.eqb c ">" then Some ("", p')
      else match parse_name p' with
           | Some (n, r) => Some (String c n, r)
           | None => None
           end
  end.

Definition quantify (a : regex) (p : string) : option (regex * string) :=
  match strip_prefix "*?" p, strip_prefix "*" p, strip_prefix "?" p with
  | Some r, _, _ =>
      match a with One cs => Some (Star false cs, r) | _ => None end
  | None, Some r, _ =>
      match a with One cs => Some (Star true cs, r) | _ => None end
  | None, None, Some r => Some (Opt a, r)
  | None, None, None =>
      match strip_prefix "+" p, strip_prefix "{" p with
      | None, None => Some (a, p)
      | _, _ => None
      end
  end.

Definition close_group (i : nat) (inner : option (regex * string * pgroups))
    : option (regex * string * pgroups) :=
  match inner with
  | Some (r, p, g) =>
      match strip_prefix ")" p with
      | Some p' => Some (Group i r, p', g)
      | None => None
      end
  | None => None
  end.

Fixpoint parse_alt (fuel : nat) (p : string) (g : pgroups) {struct fuel}
    : option (regex * string * pgroups) :=
  match fuel with
  | O => None
  | S fuel' =>
      match parse_seq fuel' p g with
      | Some (r1, p1, g1) =>
          match strip_prefix "|" p1 with
          | Some p2 =>
              match parse_alt fuel' p2 g1 with
              | Some (r2, p3, g2) => Some (Alt r1 r2, p3, g2)
              | None => None
              end
          | None => Some (r1, p1, g1)
          end
      | None => None
      end
  end
with parse_seq (fuel : nat) (p : string) (g : pgroups) {struct fuel}
    : option (regex * string * pgroups) :=
  match fuel with
  | O => None
  | S fuel' =>
      match p with
      | "" => Some (Eps, p, g)
      | String c _ =>
          if Ascii.eqb c "|" || Ascii.eqb c ")" then Some (Eps, p, g)
          else
            match parse_atom fuel' p g with
            | Some (a, p1, g1) =>
                match quantify a p1 with
                | Some (item, p2) =>
                    match parse_seq fuel' p2 g1 with
                    | Some (r, p3, g2) => Some (Seq item r, p3, g2)
                    | None => None
                    end
                | None => None
                end
            | None => None
            end
      end
  end
with parse_atom (fuel : nat) (p : string) (g : pgroups) {struct fuel}
    : option (regex * string * pgroups) :=
  match fuel with
  | O => None
  | S fuel' =>
      match strip_prefix "(?P<" p, strip_prefix "(?" p, strip_prefix "(" p with
      | Some p1, _, _ =>
          match parse_name p1 with
          | Some (name, p2) =>
              let i := next_group g in
              close_group i
                (parse_alt fuel' p2
                   (PGroups (S i) (named g ++ [(name, i)])%list))
          | None => None
          end
      | None, Some _, _ => None
      | None, None, Some p1 =>
          let i := next_group g in
          close_group i (parse_alt fuel' p1 (PGroups (S i) (named g)))
      | None, None, None =>
          match p with
          | "" => None
          | String c p' =>
              if Ascii.eqb c "[" then
                match parse_class p' true [] with
                | Some (cs, p1) => Some (One cs, p1, g)
                | None => None
                end
              else if Ascii.eqb c "\" then
                match p' with
                | "" => None
                | String e p'' =>
                    match escape_item e with
                    | Some it => Some (One [it], p'', g)
                    | None => None
                    end
                end
              else if Ascii.eqb c "." then Some (One [CDot], p', g)
              else if Ascii.eqb c "^" then Some (Bol, p', g)
              else if Ascii.eqb c "$" then Some (Eol, p', g)
              else if Ascii.eqb c "*" || Ascii.eqb c "?" || Ascii.eqb c "+"
                      || Ascii.eqb c "{" then None
              else Some (One [CChar c], p', g)
          end
      end
  end.

(** A compiled pattern: its tree and the table from group names to group
    numbers ([Pattern.groupindex]). *)
Record pattern : Type := Pattern {
  tree : regex;
  groupindex : list (string * nat)
}.

(** A match object: the captured groups (group 0 is the whole match) and the
    name table of its pattern. *)
Record Match : Type := MkMatch {
  groups : gmap nat string;
  names : list (string * nat)
}.

Fixpoint assoc {V} (key : string) (l : list (string * V)) : option V :=
  match l with
  | [] => None
  | (k, v) :: l' => if String.eqb key k then Some v else assoc key l'
  end.

(** [m.group(name)]: [None] when the group took no part in the match,
    [IndexError] when the pattern has no such group. *)
Definition group (m : Match) (name : string) : result (option string) :=
  match assoc name (names m) with
  | Some i => Ok (groups m !! i)
  | None => Raise IndexError
  end.

(** [re.match] on a compiled pattern: anchored at the start of [s], not
    required to reach its end. *)
Definition match_tree (p : pattern) (s : string) : option Match :=
  match run (tree p) (MState 0 s ∅) (fun w st => Some (set_cap 0 w st)) with
  | Some st => Some (MkMatch (caps st) (groupindex p))
  | None => None
  end.

Definition compile (p : string) : option pattern :=
  match parse_alt (2 * String.length p + 2) p (PGroups 1 []) with
  | Some (r, "", g) => Some (Pattern r (named g))
  | _ => None
  end.

(** [re.match(pat, s)]. *)
Definition re_match (pat s : string) : result (option Match) :=
  match compile pat with
  | Some p => Ok (match_tree p s)
  | None => Raise ReError
  end.

End Re.

(** ** The program: constant tables *)

(** The dictionaries [ctt_type], [size], [brace] and [common] are only ever
    subscripted with literal keys; each is a name space of constants. *)

Module ctt_type.
Definition text : string := "\text".
End ctt_type.

Module size.
Definition large : string := "\large".
End size.

Module brace.
Definition open : string := "{".
Definition close : string := "}".
End brace.

Module common.
Definition tex_dollars : string := "$$".
Definition large_txt : string := size.large ++ ctt_type.text ++ brace.open.
Definition end_slash : string := "\\".
End common.

Definition needs_2nd_close_brace : gset string := {[ "-und" ]}.

(** [mapping] is iterated ([mapping.keys()]) and subscripted with a computed
    key, so it is a dictionary in insertion order. *)
Definition mapping : list (string * string) :=
  [ ("-bp", "\bullet" ++ common.large_txt ++ " ");
    ("-bf", size.large ++ "\textbf{");
    ("-br", "$$$$");
    ("-bbr", "$$ $$");
    ("-und", "\underline{" ++ common.large_txt) ].

Definition keys {V} (d : list (string * V)) : list string := map fst d.

(** [d[key]] where [key] may be [None]. *)
Definition getitem (d : list (string * string)) (key : option string)
    : result string :=
  match key with
  | Some k =>
      match Re.assoc k d with
      | Some v => Ok v
      | None => Raise KeyError
      end
  | None => Raise KeyError
  end.

Definition starts : string :=
  join (map (fun x => "^" ++ x ++ "|") (keys mapping)).

Definition possible_starts : string := "(?P<marker>" ++ starts ++ ")?".
Definition rest_of_string : string := "([ ]*)?(?P<text>.*)?(?P<nln>\n)?".

Definition PATTERN : string := possible_starts ++ rest_of_string.

(** ** The line transformer *)

(** Truth value of a [str] or [None]. *)
Definition truthy (v : option string) : bool :=
  match v with
  | Some (String _ _) => true
  | _ => false
  end.

(** [v == s] for [v] a [str] or [None] and [s] a [str]. *)
Definition py_eq (v : option string) (s : string) : bool :=
  match v with
  | Some x => String.eqb x s
  | None => false
  end.

(** [''.join(xs)] for a list whose items may be [None]. *)
Fixpoint join_items (xs : list (option string)) : result string :=
  match xs with
  | [] => Ok ""
  | Some x :: xs' => (r <- join_items xs' ;; Ok (x ++ r))%py
  | None :: _ => Raise TypeError
  end.

Definition add_tex_syntax (line : string) : result string :=
  (om <- Re.re_match PATTERN line ;;
   match om with
   | None => Raise AttributeError
   | Some mt =>
       marker <- Re.group mt "marker" ;;
       text <- Re.group mt "text" ;;
       let modified : list (option string) := [] in
       (* for a normal line of text *)
       let modified :=
         match marker with
         | None =>
             (modified ++
                [Some common.large_txt; text; Some common.end_slash])%list
         | Some _ => modified
         end in
       modified <-
         (if py_eq marker "-br" then
            (* special case for standalone -br *)
            v <- getitem mapping (Some "-br") ;;
            Ok (modified ++ [Some v])%list
          else if py_eq marker "-bbr" then
            (* special case for standalone -bbr *)
            v <- getitem mapping (Some "-bbr") ;;
            Ok (modified ++ [Some v])%list
          else if py_eq marker "" && truthy text then
            (* presence of text, with no markers *)
            Ok (modified ++
                  [Some common.large_txt; text; Some brace.close;
                   Some common.end_slash])%list
          else if py_eq marker "" && negb (truthy text) then
            (* we found whitespace *)
            v <- getitem mapping (Some "-br") ;;
            Ok (modified ++ [Some v])%list
          else
            v <- getitem mapping marker ;;
            let modified :=
              (modified ++ [Some v; text; Some brace.close])%list in
            if match marker with
               | Some mk => bool_decide (mk ∈ needs_2nd_close_brace)
               | None => false
               end
            then Ok (modified ++ [Some brace.close])%list
            else Ok (modified ++ [Some common.end_slash])%list) ;;
       join_items modified
   end)%py.

(** ** Reading and converting a file *)

(** [f.readline()] on the text still unread: the line with its newline, or
    the unterminated last line, or the empty string at the end of the file;
    and the text left. *)
Fixpoint readline (buf : string) : string * string :=
  match buf with
  | "" => ("", "")
  | String c buf' =>
      if Ascii.eqb c NL then (String c "", buf')
      else let (line, left) := readline buf' in (String c line, left)
  end.

Definition inspect {A} (a : A) : {b : A | a = b} := exist _ a eq_refl.

(** [process_files(infile, outfile)]: [infile] is the text still unread,
    [outfile] the text written so far; the loop ends at the first empty
    [readline].  Each turn consumes at least one character. *)
Equations? process_files (infile outfile : string) : result (string * string)
  by wf (String.length infile) lt :=
  process_files infile outfile with inspect (readline infile) := {
    | exist _ ("", infile') _ => Ok (infile', outfile)
    | exist _ (line, infile') _ with add_tex_syntax line := {
        | Ok out => process_files infile' ((outfile ++ out) ++ nl)
        | Raise e => Raise e } }.
Proof.
  assert (forall buf,
            String.length (readline buf).1 + String.length (readline buf).2
            = String.length buf) as Hlen.
  { induction buf as [|c b IH]; simpl; [done|].
    destruct (Ascii.eqb c NL); simpl; [done|].
    destruct (readline b) as [l r]; simpl in *. lia. }
  pose proof (Hlen infile) as H.
  rewrite e in H. simpl in H. lia.
Qed.

(** ** The driver *)

(** What [main] can observe and change: the files (path to text), the lines
    still to be typed at the console, what has been printed, and the module
    global [infile_name].  A file is the text its bytes decode to; a newline
    is written as it is (the line separator of the platform is the
    newline). *)
Record world : Type := World {
  fs : gmap string string;
  stdin : list string;
  stdout : list string;
  infile_name : string
}.

Definition IO (A : Type) : Type := world -> result A * world.

Definition io_ret {A} (a : A) : IO A := fun w => (Ok a, w).

Definition io_bind {A B} (m : IO A) (f : A -> IO B) : IO B :=
  fun w =>
    match m w with
    | (Ok a, w') => f a w'
    | (Raise e, w') => (Raise e, w')
    end.

Definition io_raise {A} (e : exn) : IO A := fun w => (Raise e, w).

Definition lift {A} (r : result A) : IO A := fun w => (r, w).

Declare Scope io_scope.
Delimit Scope io_scope with io.
Notation "x <- e ;; k" := (io_bind e (fun x => k))
  (at level 100, e at next level, right associativity) : io_scope.
Notation "e ;;; k" := (io_bind e (fun _ => k))
  (at level 100, right associativity) : io_scope.

Definition print (s : string) : IO unit :=
  fun w =>
    (Ok tt,
     World (fs w) (stdin w) (stdout w ++ [(s ++ nl)%string])%list
       (infile_name w)).

Definition sys_exit {A} (arg : Z + string) : IO A := io_raise (SystemExit arg).

(** [os.path.exists(path)]; the files are all there is. *)
Definition path_exists (path : string) : IO bool :=
  fun w => (Ok (bool_decide (is_Some (fs w !! path))), w).

(** [open(path, 'w')]: the file is created or emptied at once. *)
Definition open_w (path : string) : IO unit :=
  fun w =>
    (Ok tt,
     World (<[path := ""]> (fs w)) (stdin w) (stdout w) (infile_name w)).

(** What a file opened for reading in text mode hands out: with the default
    [newline=None] a carriage return followed by a newline, and a carriage
    return alone, are both read as one newline. *)
Fixpoint universal_newlines (s : string) : string :=
  match s with
  | "" => ""
  | String c s' =>
      if Ascii.eqb c CR then
        String NL
          match s' with
          | "" => ""
          | String d s'' =>
              if Ascii.eqb d NL then universal_newlines s''
              else universal_newlines s'
          end
      else String c (universal_newlines s')
  end.

(** [open(path, 'r')]: the text of the file as a text stream reads it. *)
Definition open_r (path : string) : IO string :=
  fun w =>
    match fs w !! path with
    | Some text => (Ok (universal_newlines text), w)
    | None => (Raise FileNotFoundError, w)
    end.

(** [outfile.close()]: what was written reaches the file. *)
Definition close_w (path written : string) : IO unit :=
  fun w =>
    (Ok tt,
     World (<[path := written]> (fs w)) (stdin w) (stdout w) (infile_name w)).

Definition set_infile_name (name : string) : IO unit :=
  fun w => (Ok tt, World (fs w) (stdin w) (stdout w) name).

Definition get_infile_name : IO string := fun w => (Ok (infile_name w), w).

Definition dquote : string := String "034"%char "".

Definition show_error (message_type : string) : IO string :=
  (name <- get_infile_name ;;
   let errors :=
     [ ("usage",
        "Usage: python3 texit.py " ++ dquote ++ "<filepath>" ++ dquote
        ++ "|filename");
       ("file_nonexistent", "`" ++ name ++ "` does not exist.") ] in
   lift (getitem errors (Some message_type)))%io.

Definition overwrite_prompt : string := "Do you want to overwrite it? (y/n): ".
Definition goodbye : string := "Nothing has changed, goodbye!".

(** The [while True] loop around [input]: [pending] are the lines still to be
    typed, [out] what the console shows.  Every turn shows the prompt and
    takes one line; without a line to take, [input] raises [EOFError]. *)
Fixpoint overwrite_loop (pending out : list string)
    : result bool * list string * list string :=
  let out := (out ++ [overwrite_prompt])%list in
  match pending with
  | [] => (Raise EOFError, [], out)
  | overwrite_permission :: pending' =>
      if str_in (lower overwrite_permission) "n" then
        (Raise (SystemExit (inr goodbye)), pending', out)
      else if str_in (lower overwrite_permission) "y" then
        (Ok true, pending', out)
      else
        overwrite_loop pending'
          (out ++ [("Enter a 'y' for yes, or 'n' for no." ++ nl)%string])%list
  end.

Definition ask_overwrite : IO bool :=
  fun w =>
    let '(r, pending, out) := overwrite_loop (stdin w) (stdout w) in
    (r, World (fs w) pending out (infile_name w)).

(** [a + b] where [a] may be [None]. *)
Definition py_add (a : option string) (b : string) : result string :=
  match a with
  | Some x => Ok (x ++ b)
  | None => Raise TypeError
  end.

Definition infile_pattern : string :=
  "^(?P<origin>.*?)?(?P<name>[-\w\.]*)(?P<ext>\.[\w]*)$".

(** The text of the summary after [dedent]: every line of the literal starts
    with the same four spaces, and its last line is blank. *)
Definition summary (infile_name outfile_name outfile_path : string) : string :=
  nl ++ "--------------------" ++ nl
  ++ "Summary:" ++ nl
  ++ "--------------------" ++ nl
  ++ "input file: " ++ infile_name ++ nl
  ++ "output file name: " ++ outfile_name ++ nl
  ++ "output file path: " ++ outfile_path ++ nl
  ++ "--------------------" ++ nl.

Definition main (argv : list string) : IO unit :=
  ((* check the correct number of arguments *)
   (if negb (length argv =? 2)%nat then
      msg <- show_error "usage" ;;
      print msg ;;;
      sys_exit (inl 1%Z)
    else
      set_infile_name (nth 1 argv "")) ;;;
   infile_name <- get_infile_name ;;
   found <- path_exists infile_name ;;
   (if negb found then
      msg <- show_error "file_nonexistent" ;;
      print msg ;;;
      print "" ;;;
      msg <- show_error "usage" ;;
      print msg ;;;
      sys_exit (inl 2%Z)
    else io_ret tt) ;;;
   (* save the output file in the same location as the input file *)
   infile_match <- lift (Re.re_match infile_pattern infile_name) ;;
   match infile_match with
   | None => io_raise AttributeError
   | Some mt =>
       outfile_location <- lift (Re.group mt "origin") ;;
       name <- lift (Re.group mt "name") ;;
       outfile_name <- lift (py_add name "_texit_out.txt") ;;
       outfile_path <- lift (py_add outfile_location outfile_name) ;;
       (* ask for permission to overwrite an already-existing output file *)
       taken <- path_exists outfile_path ;;
       file_overwritten <-
         (if taken then
            print (nl ++ "The output file `" ++ outfile_path
                   ++ "` already exists") ;;;
            ask_overwrite
          else io_ret false) ;;
       open_w outfile_path ;;;
       (* add TeX syntax *)
       infile <- open_r infile_name ;;
       let outfile := "" in
       let outfile := outfile ++ common.tex_dollars in
       let outfile := outfile ++ nl in
       files <- lift (process_files infile outfile) ;;
       let outfile := files.2 ++ common.tex_dollars in
       let outfile := outfile ++ nl in
       (if file_overwritten then print "Overwrite successful!"
        else io_ret tt) ;;;
       close_w outfile_path outfile ;;;
       (* print summary of conversion *)
       print (summary infile_name outfile_name outfile_path)
   end)%io.

(** ** Notions used to state the properties *)

(** Longest prefix of [s] made of characters of [cs], and what follows it. *)
Fixpoint span (cs : Re.charset) (s : string) : string * string :=
  match s with
  | String c s' =>
      if Re.cs_mem cs c
      then let (w, r) := span cs s' in (String c w, r)
      else ("", s)
  | "" => ("", "")
  end.

(** The pattern that matches the text [x] literally. *)
Fixpoint lits (x : string) : Re.regex :=
  match x with
  | "" => Re.Eps
  | String c x' => Re.Seq (Re.One [Re.CChar c]) (lits x')
  end.

(** The alternation [^k1|^k2|...|] that [starts] spells out for the keys. *)
Definition alts (ks : list string) : Re.regex :=
  fold_right (fun k acc => Re.Alt (Re.Seq Re.Bol (lits k)) acc) Re.Eps ks.

(** The first key, in table order, that the line starts with, or the empty
    string; and the line after it. *)
Fixpoint lex_marker (ks : list string) (line : string) : string * string :=
  match ks with
  | [] => ("", line)
  | k :: ks' =>
      match Re.strip_prefix k line with
      | Some r => (k, r)
      | None => lex_marker ks' line
      end
  end.

Definition marker_of (line : string) : string :=
  (lex_marker (keys mapping) line).1.

(** What remains of the line after the marker and the spaces that follow it,
    up to the first newline. *)
Definition text_of (line : string) : string :=
  (span [Re.CDot] (span [Re.CChar SP] (lex_marker (keys mapping) line).2).2).1.

(** The values that [add_tex_syntax] binds to [marker] and to [text]. *)
Definition recognized_marker (line : string) : result (option string) :=
  (om <- Re.re_match PATTERN line ;;
   match om with
   | None => Raise AttributeError
   | Some mt => Re.group mt "marker"
   end)%py.

Definition remaining_text (line : string) : result (option string) :=
  (om <- Re.re_match PATTERN line ;;
   match om with
   | None => Raise AttributeError
   | Some mt => Re.group mt "text"
   end)%py.

(** A line of [n] spaces, and a line holding one tab. *)
Fixpoint spaces (n : nat) : string :=
  match n with
  | O => ""
  | S n' => String SP (spaces n')
  end.

Definition TAB : string := String "009"%char "".

(** The part of [PATTERN] after the marker group, and [PATTERN] compiled. *)
Definition line_tail : Re.regex :=
  Re.Seq (Re.Opt (Re.Group 2 (Re.Seq (Re.Star true [Re.CChar SP]) Re.Eps)))
    (Re.Seq (Re.Opt (Re.Group 3 (Re.Seq (Re.Star true [Re.CDot]) Re.Eps)))
       (Re.Seq (Re.Opt (Re.Group 4 (Re.Seq (Re.One [Re.CChar NL]) Re.Eps)))
          Re.Eps)).

Definition line_pattern : Re.pattern :=
  Re.Pattern
    (Re.Seq (Re.Opt (Re.Group 1 (alts (keys mapping)))) line_tail)
    [("marker", 1); ("text", 3); ("nln", 4)].

(** [picks r st w st']: from [st], the first way of matching [r] that the
    matcher tries consumes [w] and leaves [st'], and it is kept whenever the
    rest of the pattern succeeds after it. *)
Definition picks (r : Re.regex) (st : Re.mstate) (w : string)
    (st' : Re.mstate) : Prop :=
  forall k m, k w st' = Some m -> Re.run r st k = Some m.

(** [fails r st]: [r] has no match at [st]. *)
Definition fails (r : Re.regex) (st : Re.mstate) : Prop :=
  forall k, Re.run r st k = None.

(** Every character of [s] satisfies [f]. *)
Fixpoint forall_chars (f : ascii -> bool) (s : string) : bool :=
  match s with
  | "" => true
  | String c s' => f c && forall_chars f s'
  end.

Definition not_newline (c : ascii) : bool := negb (Ascii.eqb c NL).

(** [matches r st w st']: [r] can match the text [w] at [st] and leave
    [st'], whatever the order in which the matcher would try it. *)
Inductive matches : Re.regex -> Re.mstate -> string -> Re.mstate -> Prop :=
| M_Eps st : matches Re.Eps st "" st
| M_One cs st c s' :
    Re.rest st = String c s' -> Re.cs_mem cs c = true ->
    matches (Re.One cs) st (String c "")
      (Re.MState (S (Re.pos st)) s' (Re.caps st))
| M_Bol st : Re.pos st = 0 -> matches Re.Bol st "" st
| M_Eol st : Re.rest st = "" \/ Re.rest st = nl -> matches Re.Eol st "" st
| M_Seq r1 r2 st w1 st1 w2 st2 :
    matches r1 st w1 st1 -> matches r2 st1 w2 st2 ->
    matches (Re.Seq r1 r2) st (w1 ++ w2) st2
| M_AltL r1 r2 st w st' :
    matches r1 st w st' -> matches (Re.Alt r1 r2) st w st'
| M_AltR r1 r2 st w st' :
    matches r2 st w st' -> matches (Re.Alt r1 r2) st w st'
| M_Group i r st w st' :
    matches r st w st' -> matches (Re.Group i r) st w (Re.set_cap i w st')
| M_OptSome r st w st' :
    matches r st w st' -> matches (Re.Opt r) st w st'
| M_OptNone r st : matches (Re.Opt r) st "" st
| M_Star g cs st w s' :
    forall_chars (Re.cs_mem cs) w = true -> Re.rest st = w ++ s' ->
    matches (Re.Star g cs) st w
      (Re.MState (Re.pos st + String.length w) s' (Re.caps st)).

(** [infile_pattern] compiled: the part after the origin group, and the
    whole. *)
Definition name_chars : Re.charset := [Re.CChar "-"; Re.CWord; Re.CChar "."].

Definition name_and_ext : Re.regex :=
  Re.Seq (Re.Group 2 (Re.Seq (Re.Star true name_chars) Re.Eps))
    (Re.Seq
       (Re.Group 3
          (Re.Seq (Re.One [Re.CChar "."])
             (Re.Seq (Re.Star true [Re.CWord]) Re.Eps)))
       (Re.Seq Re.Eol Re.Eps)).

Definition origin_group : Re.regex :=
  Re.Opt (Re.Group 1 (Re.Seq (Re.Star false [Re.CDot]) Re.Eps)).

Definition path_pattern : Re.pattern :=
  Re.Pattern
    (Re.Seq Re.Bol (Re.Seq origin_group name_and_ext))
    [("origin", 1); ("name", 2); ("ext", 3)].

(** The values that [main] binds to [outfile_name] and [outfile_path] for an
    input path. *)
Definition derived_outfile (infile_name : string) : result (string * string) :=
  (infile_match <- Re.re_match infile_pattern infile_name ;;
   match infile_match with
   | None => Raise AttributeError
   | Some mt =>
       outfile_location <- Re.group mt "origin" ;;
       name <- Re.group mt "name" ;;
       outfile_name <- py_add name "_texit_out.txt" ;;
       outfile_path <- py_add outfile_location outfile_name ;;
       Ok (outfile_name, outfile_path)
   end)%py.

(** The lines of a text: each ends with its newline, except possibly the
    last. *)
Fixpoint file_lines (buf : string) : list string :=
  match buf with
  | "" => []
  | String c buf' =>
      if Ascii.eqb c NL then String c "" :: file_lines buf'
      else
        match file_lines buf' with
        | [] => [String c ""]
        | l :: ls => String c l :: ls
        end
  end.

(** The answers typed end the overwrite question with a yes: some answers
    that are refused, then one that is taken as [y]. *)
Fixpoint allows_overwrite (pending : list string) : bool :=
  match pending with
  | [] => false
  | answer :: pending' =>
      if str_in (lower answer) "n" then false
      else if str_in (lower answer) "y" then true
      else allows_overwrite pending'
  end.

(** Number of occurrences of the character [c] in [s]. *)
Fixpoint count_char (c : ascii) (s : string) : nat :=
  match s with
  | "" => 0
  | String d s' => (if Ascii.eqb d c then 1 else 0) + count_char c s'
  end.

(** The usage message of [show_error]. *)
Definition usage : string :=
  "Usage: python3 texit.py " ++ dquote ++ "<filepath>" ++ dquote
  ++ "|filename".

(** The notice printed before the overwrite question, and the hint printed
    after an answer that is refused. *)
Definition exists_notice (outfile_path : string) : string :=
  nl ++ "The output file `" ++ outfile_path ++ "` already exists".

Definition answer_hint : string := "Enter a 'y' for yes, or 'n' for no.".

(** ** Sample matches *)

Example line_groups_marked :
  recognized_marker ("-und important" ++ nl) = Ok (Some "-und")
  /\ remaining_text ("-und important" ++ nl) = Ok (Some "important").
Proof. vm_compute. done. Qed.

Example line_groups_unknown_marker :
  recognized_marker ("-bx hi" ++ nl ++ "more") = Ok (Some "")
  /\ remaining_text ("-bx hi" ++ nl ++ "more") = Ok (Some "-bx hi").
Proof. vm_compute. done. Qed.

Example line_groups_marker_after_space :
  recognized_marker " -bp x" = Ok (Some "")
  /\ remaining_text " -bp x" = Ok (Some "-bp x").
Proof. vm_compute. done. Qed.

Example line_groups_marker_alone :
  recognized_marker ("-bp" ++ nl) = Ok (Some "-bp")
  /\ remaining_text ("-bp" ++ nl) = Ok (Some "").
Proof. vm_compute. done. Qed.

Example outfile_two_dots :
  derived_outfile "notes.tar.gz"
  = Ok ("notes.tar_texit_out.txt", "notes.tar_texit_out.txt").
Proof. vm_compute. done. Qed.

Example outfile_space_in_name :
  derived_outfile "/a/my notes.txt"
  = Ok ("notes_texit_out.txt", "/a/my notes_texit_out.txt").
Proof. vm_compute. done. Qed.

Example outfile_hidden_file :
  derived_outfile ".bashrc" = Ok ("_texit_out.txt", "_texit_out.txt").
Proof. vm_compute. done. Qed.

Example outfile_final_newline :
  derived_outfile ("x.txt" ++ nl) = Ok ("x_texit_out.txt", "x_texit_out.txt").
Proof. vm_compute. done. Qed.

Example outfile_no_extension :
  derived_outfile "notes" = Raise AttributeError
  /\ derived_outfile "a.b/c" = Raise AttributeError
  /\ derived_outfile ("a" ++ nl ++ "b.txt") = Raise AttributeError.
Proof. vm_compute. done. Qed.

Example universal_newlines_sample :
  universal_newlines
    ("a" ++ String CR nl ++ "b" ++ String CR "c" ++ String CR "")
  = "a" ++ nl ++ "b" ++ nl ++ "c" ++ nl.
Proof. vm_compute. done. Qed.

Example carriage_return_ends_a_line :
  fs (main ["texit.py"; "n.txt"]
        (World {[ "n.txt" := "a" ++ String CR "b" ]} [] [] "")).2
  !! "n_texit_out.txt"
  = Some ("$$" ++ nl ++ "\large\text{a}\\" ++ nl
          ++ "\large\text{b}\\" ++ nl ++ "$$" ++ nl).
Proof. vm_compute. done. Qed.

Example blank_line_of_a_crlf_file :
  fs (main ["texit.py"; "n.txt"]
        (World {[ "n.txt" := "x" ++ String CR nl ++ String CR nl ]}
           [] [] "")).2
  !! "n_texit_out.txt"
  = Some ("$$" ++ nl ++ "\large\text{x}\\" ++ nl ++ "$$$$" ++ nl
          ++ "$$" ++ nl).
Proof. vm_compute. done. Qed.

Example usage_error_run :
  main ["texit.py"] (World ∅ [] [] "")
  = (Raise (SystemExit (inl 1%Z)),
     World ∅ []
       [("Usage: python3 texit.py " ++ dquote ++ "<filepath>" ++ dquote
         ++ "|filename") ++ nl] "").
Proof. vm_compute. done. Qed.

(** ** Facts about the matcher *)

Section MatcherOrder.

Import Re.

Lemma rep_max_first {A} cs s (k : string -> string -> option A) m :
  k (span cs s).1 (span cs s).2 = Some m -> rep_max cs s k = Some m.
Proof.
  revert k. induction s as [|c s IH]; intros k; simpl; [done|].
  destruct (cs_mem cs c); [|done].
  destruct (span cs s) as [w r] eqn:E; simpl in *.
  intros Hk. rewrite (IH (fun w r => k (String c w) r)); done.
Qed.

Lemma picks_eps st : picks Eps st "" st.
Proof. intros k m Hk. done. Qed.

Lemma picks_seq r1 r2 st w1 st1 w2 st2 :
  picks r1 st w1 st1 -> picks r2 st1 w2 st2 ->
  picks (Seq r1 r2) st (w1 ++ w2) st2.
Proof. intros H1 H2 k m Hk. simpl. apply H1, H2, Hk. Qed.

Lemma picks_group i r st w st' :
  picks r st w st' -> picks (Group i r) st w (set_cap i w st').
Proof. intros H k m Hk. simpl. apply H, Hk. Qed.

Lemma picks_opt r st w st' : picks r st w st' -> picks (Opt r) st w st'.
Proof. intros H k m Hk. simpl. rewrite (H k m Hk). done. Qed.

Lemma picks_opt_skip r st : fails r st -> picks (Opt r) st "" st.
Proof. intros H k m Hk. simpl. rewrite H. done. Qed.

Lemma picks_alt_l r1 r2 st w st' :
  picks r1 st w st' -> picks (Alt r1 r2) st w st'.
Proof. intros H k m Hk. simpl. rewrite (H k m Hk). done. Qed.

Lemma picks_star_max cs st :
  picks (Star true cs) st (span cs (rest st)).1
    (MState (pos st + String.length (span cs (rest st)).1)
            (span cs (rest st)).2 (caps st)).
Proof. intros k m Hk. simpl. apply rep_max_first. done. Qed.

Lemma picks_one cs st c s' :
  rest st = String c s' -> cs_mem cs c = true ->
  picks (One cs) st (String c "") (MState (S (pos st)) s' (caps st)).
Proof. intros Hr Hc k m Hk. simpl. rewrite Hr, Hc. done. Qed.

Lemma fails_one_end cs st : rest st = "" -> fails (One cs) st.
Proof. intros Hr k. simpl. rewrite Hr. done. Qed.

Lemma fails_one_other cs st c s' :
  rest st = String c s' -> cs_mem cs c = false -> fails (One cs) st.
Proof. intros Hr Hc k. simpl. rewrite Hr, Hc. done. Qed.

Lemma fails_seq_l r1 r2 st : fails r1 st -> fails (Seq r1 r2) st.
Proof. intros H k. simpl. apply H. Qed.

Lemma fails_group i r st : fails r st -> fails (Group i r) st.
Proof. intros H k. simpl. apply H. Qed.

Lemma run_lits x st k :
  run (lits x) st k =
  match strip_prefix x (rest st) with
  | Some r => k x (MState (pos st + String.length x) r (caps st))
  | None => None
  end.
Proof.
  revert st k. induction x as [|c x IH]; intros [p s cp] k; simpl.
  - rewrite Nat.add_0_r. done.
  - destruct s as [|b s]; [done|].
    rewrite orb_false_r, (Ascii.eqb_sym b c).
    destruct (Ascii.eqb_spec c b) as [->|_]; [|done].
    rewrite IH. simpl. destruct (strip_prefix x s); [|done].
    do 2 f_equal. lia.
Qed.

Lemma picks_alts ks line cp :
  picks (alts ks) (MState 0 line cp) (lex_marker ks line).1
    (MState (String.length (lex_marker ks line).1) (lex_marker ks line).2 cp).
Proof.
  induction ks as [|x ks IH]; intros k m Hk; simpl in *; [done|].
  rewrite run_lits. simpl.
  destruct (strip_prefix x line) as [r|]; simpl in *.
  - rewrite Hk. done.
  - apply IH. done.
Qed.

End MatcherOrder.

(** ** The match of [PATTERN] on a line *)

Section LineMatch.

Import Re.

Lemma PATTERN_compiled : compile PATTERN = Some line_pattern.
Proof. vm_compute. reflexivity. Qed.

Lemma append_nil_r (s : string) : s ++ "" = s.
Proof. induction s as [|c s IH]; simpl; [done|]. rewrite IH. done. Qed.

Lemma picks_line_tail st :
  exists w st',
    picks line_tail st w st'
    /\ caps st' !! 1 = caps st !! 1
    /\ caps st' !! 3 =
       Some (span [CDot] (span [CChar SP] (rest st)).2).1.
Proof.
  pose proof (picks_opt _ _ _ _ (picks_group 2 _ _ _ _
    (picks_seq _ _ _ _ _ _ _ (picks_star_max [CChar SP] st) (picks_eps _))))
    as H2.
  set (st1 := set_cap 2 _ _) in H2.
  pose proof (picks_opt _ _ _ _ (picks_group 3 _ _ _ _
    (picks_seq _ _ _ _ _ _ _ (picks_star_max [CDot] st1) (picks_eps _))))
    as H3.
  set (st2 := set_cap 3 _ _) in H3.
  assert (exists w4 st3,
    picks (Opt (Group 4 (Seq (One [CChar NL]) Eps))) st2 w4 st3
    /\ caps st3 !! 1 = caps st2 !! 1 /\ caps st3 !! 3 = caps st2 !! 3)
    as (w4 & st3 & H4 & E1 & E3).
  { destruct (rest st2) as [|c s'] eqn:Er.
    - exists "", st2. split; [|done].
      apply picks_opt_skip, fails_group, fails_seq_l, fails_one_end. done.
    - destruct (cs_mem [CChar NL] c) eqn:Ec.
      + eexists _, _. split.
        { apply picks_opt, picks_group.
          exact (picks_seq _ _ _ _ _ _ _
                   (picks_one _ _ _ _ Er Ec) (picks_eps _)). }
        simpl. rewrite !lookup_insert_ne by done. done.
      + exists "", st2. split; [|done].
        apply picks_opt_skip, fails_group, fails_seq_l.
        exact (fails_one_other _ _ _ _ Er Ec). }
  eexists _, st3. split; [|split].
  - exact (picks_seq _ _ _ _ _ _ _ H2
             (picks_seq _ _ _ _ _ _ _ H3
                (picks_seq _ _ _ _ _ _ _ H4 (picks_eps _)))).
  - rewrite E1. subst st2 st1. simpl.
    rewrite !lookup_insert_ne by done. done.
  - rewrite E3. subst st2. simpl. rewrite lookup_insert_eq, append_nil_r.
    subst st1. simpl. done.
Qed.

(** On every line [PATTERN] matches; its marker group holds the first key
    the line starts with, or the empty string, and its text group what
    follows the marker and the spaces after it, up to the first newline. *)
Lemma line_match (line : string) :
  exists mt,
    re_match PATTERN line = Ok (Some mt)
    /\ group mt "marker" = Ok (Some (marker_of line))
    /\ group mt "text" = Ok (Some (text_of line)).
Proof.
  unfold re_match, match_tree. rewrite PATTERN_compiled.
  pose proof (picks_opt _ _ _ _
    (picks_group 1 _ _ _ _ (picks_alts (keys mapping) line ∅))) as H1.
  set (st1 := set_cap 1 _ _) in H1.
  destruct (picks_line_tail st1) as (w & st' & Ht & E1 & E3).
  pose proof (picks_seq _ _ _ _ _ _ _ H1 Ht) as H.
  change (tree line_pattern)
    with (Seq (Opt (Group 1 (alts (keys mapping)))) line_tail).
  erewrite H by reflexivity.
  eexists. split; [reflexivity|].
  unfold group. simpl. rewrite !lookup_insert_ne by done.
  rewrite E1, E3. subst st1. simpl. rewrite lookup_insert_eq. done.
Qed.

End LineMatch.

(** ** The branches of [add_tex_syntax] *)

Section Transformer.

Lemma recognized_marker_eq line :
  recognized_marker line = Ok (Some (marker_of line)).
Proof.
  destruct (line_match line) as (mt & Hm & Hk & _).
  unfold recognized_marker. rewrite Hm. done.
Qed.

Lemma remaining_text_eq line :
  remaining_text line = Ok (Some (text_of line)).
Proof.
  destruct (line_match line) as (mt & Hm & _ & Ht).
  unfold remaining_text. rewrite Hm. done.
Qed.

(** The output as a function of the marker and the text found. *)
Lemma add_tex_syntax_cases line :
  add_tex_syntax line =
  let mk := marker_of line in
  let tx := text_of line in
  if String.eqb mk "-br" then Ok "$$$$"
  else if String.eqb mk "-bbr" then Ok "$$ $$"
  else if String.eqb mk "" then
    match tx with
    | "" => Ok "$$$$"
    | _ => Ok (common.large_txt ++ tx ++ brace.close ++ common.end_slash)
    end
  else
    match Re.assoc mk mapping with
    | Some v =>
        Ok (v ++ tx ++ brace.close ++
            (if bool_decide (mk ∈ needs_2nd_close_brace)
             then brace.close else common.end_slash))
    | None => Raise KeyError
    end.
Proof.
  destruct (line_match line) as (mt & Hm & Hk & Ht).
  unfold add_tex_syntax. rewrite Hm. cbn [rbind]. rewrite Hk, Ht.
  cbn [rbind py_eq]. cbv zeta.
  destruct (String.eqb (marker_of line) "-br"); [done|].
  destruct (String.eqb (marker_of line) "-bbr"); [done|].
  destruct (String.eqb (marker_of line) "").
  - destruct (text_of line) as [|c t]; [done|].
    cbn. reflexivity.
  - cbn [andb getitem rbind].
    destruct (Re.assoc (marker_of line) mapping) as [v|]; [|done].
    cbn [rbind]. destruct (bool_decide _); cbn; rewrite ?append_nil_r; done.
Qed.

Lemma lex_marker_in ks line :
  (lex_marker ks line).1 = "" \/ In (lex_marker ks line).1 ks.
Proof.
  induction ks as [|k ks IH]; simpl; [by left|].
  destruct (Re.strip_prefix k line); simpl; [by right; left|].
  destruct IH; [by left|by right; right].
Qed.

Lemma marker_of_cases line :
  marker_of line = "" \/ In (marker_of line) (keys mapping).
Proof. apply lex_marker_in. Qed.

Lemma span_spaces n tail :
  (forall t, tail <> String SP t) ->
  span [Re.CChar SP] (spaces n ++ tail) = (spaces n, tail).
Proof.
  intros Ht. induction n as [|n IH]; simpl.
  - destruct tail as [|c t]; [done|]. simpl. rewrite orb_false_r.
    destruct (Ascii.eqb_spec c SP) as [->|_]; [|done].
    by destruct (Ht t).
  - rewrite IH. done.
Qed.

Lemma strip_prefix_head a x c t :
  Ascii.eqb a c = false ->
  Re.strip_prefix (String a x) (String c t) = None.
Proof. intros H. cbn [Re.strip_prefix]. rewrite H. done. Qed.

Lemma lex_marker_other_head c t :
  c <> "-"%char ->
  lex_marker (keys mapping) (String c t) = ("", String c t).
Proof.
  intros Hc. assert (Ascii.eqb "-" c = false) as H.
  { apply Ascii.eqb_neq. congruence. }
  cbn [keys mapping map fst lex_marker].
  rewrite !strip_prefix_head by done. done.
Qed.

Lemma lex_marker_spaces n tail :
  (forall t, tail <> String "-" t) ->
  lex_marker (keys mapping) (spaces n ++ tail) = ("", spaces n ++ tail).
Proof.
  intros Ht. destruct n as [|n].
  - destruct tail as [|c t]; [done|].
    apply lex_marker_other_head. intros ->. by destruct (Ht t).
  - apply lex_marker_other_head. done.
Qed.

Lemma prefix_append (a b : string) : String.prefix a (a ++ b) = true.
Proof.
  induction a as [|c a IH]; simpl; [by destruct b|].
  destruct (ascii_dec c c); done.
Qed.

Lemma add_tex_syntax_prefix line v :
  Re.assoc (marker_of line) mapping = Some v ->
  exists out, add_tex_syntax line = Ok out /\ String.prefix v out = true.
Proof.
  intros Hv. rewrite add_tex_syntax_cases. cbv zeta.
  destruct (String.eqb_spec (marker_of line) "-br") as [E|_].
  { rewrite E in Hv. injection Hv as <-. by eexists. }
  destruct (String.eqb_spec (marker_of line) "-bbr") as [E|_].
  { rewrite E in Hv. injection Hv as <-. by eexists. }
  destruct (String.eqb_spec (marker_of line) "") as [E|_].
  { rewrite E in Hv. done. }
  rewrite Hv. eexists. split; [done|]. apply prefix_append.
Qed.

Lemma marker_of_marked m t :
  In m (keys mapping) -> marker_of (m ++ " " ++ t) = m.
Proof.
  simpl. intros [<-|[<-|[<-|[<-|[<-|[]]]]]]; reflexivity.
Qed.

End Transformer.

(** ** Properties of the line transformer *)

(** C1, as stated, fails on the line [hello]: no fixed marker is recognized,
    the text is [hello], and the output does carry a closing brace. *)
Lemma plain_text_without_brace_refuted :
  recognized_marker "hello" = Ok (Some "")
  /\ remaining_text "hello" = Ok (Some "hello")
  /\ add_tex_syntax "hello" = Ok "\large\text{hello}\\"
  /\ add_tex_syntax "hello"
     <> Ok (common.large_txt ++ "hello" ++ common.end_slash).
Proof. vm_compute. repeat split; discriminate. Qed.

(** C1 (amended): for every line on which no fixed marker is recognized and
    whose remaining text is not empty, the output is the large-text opening
    fragment, the text, one closing brace and the line-continuation token. *)
Theorem unmarked_text_gets_closing_brace
    (line : string) (mk : option string) (tx : string) :
  recognized_marker line = Ok mk ->
  (forall k, mk = Some k -> ~ In k (keys mapping)) ->
  remaining_text line = Ok (Some tx) ->
  tx <> "" ->
  add_tex_syntax line
  = Ok (common.large_txt ++ tx ++ brace.close ++ common.end_slash).
Proof.
  rewrite recognized_marker_eq, remaining_text_eq.
  intros [= <-] Hk [= <-] Htx.
  rewrite add_tex_syntax_cases. cbv zeta.
  destruct (marker_of_cases line) as [E|E]; [|by destruct (Hk _ eq_refl)].
  rewrite E. simpl. destruct (text_of line); done.
Qed.

Lemma unmarked_text_gets_closing_brace_hello :
  add_tex_syntax "hello" = Ok "\large\text{hello}\\".
Proof.
  apply (unmarked_text_gets_closing_brace "hello" (Some "") "hello").
  - vm_compute. reflexivity.
  - intros k [= <-] H. vm_compute in H. intuition discriminate.
  - vm_compute. reflexivity.
  - discriminate.
Defined.

(** C2, as stated, fails: the empty line does not give the opening fragment
    followed by the continuation token. *)
Lemma empty_line_as_plain_text_refuted :
  add_tex_syntax "" = Ok "$$$$"
  /\ add_tex_syntax "" <> Ok (common.large_txt ++ "" ++ common.end_slash).
Proof. vm_compute. split; [reflexivity|discriminate]. Qed.

(** C2 (amended): on the empty line the marker found is the empty string and
    the text is empty, and the output is the expansion of [-br], [$$$$]. *)
Theorem empty_line_gives_br_expansion :
  recognized_marker "" = Ok (Some "")
  /\ remaining_text "" = Ok (Some "")
  /\ getitem mapping (Some "-br") = Ok "$$$$"
  /\ add_tex_syntax "" = Ok "$$$$".
Proof. vm_compute. repeat split. Qed.

(** C3, as stated, fails on a whitespace-only line that is not made of
    spaces: a line holding one tab is wrapped as text. *)
Lemma tab_line_is_text :
  recognized_marker (TAB ++ nl) = Ok (Some "")
  /\ remaining_text (TAB ++ nl) = Ok (Some TAB)
  /\ add_tex_syntax (TAB ++ nl)
     = Ok (common.large_txt ++ TAB ++ brace.close ++ common.end_slash)
  /\ add_tex_syntax (TAB ++ nl) <> Ok "$$$$"
  /\ add_tex_syntax TAB <> Ok "$$$$".
Proof. vm_compute. repeat split; discriminate. Qed.

(** C3 (amended): on every line the marker group takes part in the match, so
    [marker] is never [None]; a line that starts with no fixed marker has the
    empty string as its marker and gives [$$$$] when its text is empty and
    the large-text fragment, the text, a closing brace and the continuation
    token otherwise; lines made of spaces only, with or without their
    newline, and the empty line give [$$$$]. *)
Theorem marker_is_never_none :
  (forall line,
     exists mk tx,
       recognized_marker line = Ok (Some mk)
       /\ remaining_text line = Ok (Some tx)
       /\ (~ In mk (keys mapping) ->
           mk = ""
           /\ add_tex_syntax line =
              match tx with
              | "" => Ok "$$$$"
              | _ => Ok (common.large_txt ++ tx ++ brace.close
                         ++ common.end_slash)
              end))
  /\ (forall n,
        add_tex_syntax (spaces n) = Ok "$$$$"
        /\ add_tex_syntax (spaces n ++ nl) = Ok "$$$$").
Proof.
  split.
  - intros line. exists (marker_of line), (text_of line).
    split; [apply recognized_marker_eq|].
    split; [apply remaining_text_eq|].
    intros Hk. destruct (marker_of_cases line) as [E|E]; [|done].
    split; [done|]. rewrite add_tex_syntax_cases. cbv zeta. rewrite E. done.
  - intros n. split; rewrite add_tex_syntax_cases; cbv zeta;
      unfold marker_of, text_of.
    + rewrite <- (append_nil_r (spaces n)).
      rewrite lex_marker_spaces by done. simpl.
      rewrite span_spaces by done. done.
    + rewrite lex_marker_spaces by done. simpl.
      rewrite span_spaces by done. done.
Qed.

Lemma marker_is_never_none_samples :
  (exists mk, recognized_marker "hello" = Ok (Some mk))
  /\ add_tex_syntax ("   " ++ nl) = Ok "$$$$".
Proof.
  split.
  - destruct (proj1 marker_is_never_none "hello") as (mk & _ & H & _).
    exists mk. exact H.
  - exact (proj2 (proj2 marker_is_never_none 3)).
Defined.

(** C5: [add_tex_syntax] returns a string on every line, the empty line and
    the lines made of whitespace included; the marker found is the empty
    string or a key of [mapping], so the lookup [mapping[marker]] never
    raises [KeyError]. *)
Theorem add_tex_syntax_total (line : string) :
  (exists out, add_tex_syntax line = Ok out)
  /\ (exists mk,
        recognized_marker line = Ok (Some mk)
        /\ (mk = "" \/ exists v, getitem mapping (Some mk) = Ok v))
  /\ add_tex_syntax line <> Raise KeyError.
Proof.
  assert (marker_of line = ""
          \/ exists v, getitem mapping (Some (marker_of line)) = Ok v) as Hm.
  { destruct (marker_of_cases line) as [E|E]; [by left|right].
    simpl in E. destruct E as [<-|[<-|[<-|[<-|[<-|[]]]]]]; by eexists. }
  assert (exists out, add_tex_syntax line = Ok out) as [out Hout].
  { rewrite add_tex_syntax_cases. cbv zeta.
    destruct (String.eqb _ "-br"); [by eexists|].
    destruct (String.eqb _ "-bbr"); [by eexists|].
    destruct (String.eqb_spec (marker_of line) "") as [E|E].
    - destruct (text_of line); by eexists.
    - destruct Hm as [?|[v Hv]]; [done|]. unfold getitem in Hv.
      destruct (Re.assoc _ mapping); [by eexists|done]. }
  split; [by exists out|]. split.
  - exists (marker_of line). split; [apply recognized_marker_eq|done].
  - rewrite Hout. done.
Qed.

(** C6: when the marker found is [-br] the output is [$$$$], when it is
    [-bbr] the output is [$$ $$]; whatever follows the marker on the line has
    no effect on the output. *)
Theorem br_expansions_ignore_text :
  (forall line,
     recognized_marker line = Ok (Some "-br") ->
     add_tex_syntax line = Ok "$$$$")
  /\ (forall line,
        recognized_marker line = Ok (Some "-bbr") ->
        add_tex_syntax line = Ok "$$ $$")
  /\ (forall tail, add_tex_syntax ("-br" ++ tail) = Ok "$$$$")
  /\ (forall tail, add_tex_syntax ("-bbr" ++ tail) = Ok "$$ $$").
Proof.
  repeat split.
  - intros line. rewrite recognized_marker_eq. intros [= E].
    rewrite add_tex_syntax_cases. cbv zeta. rewrite E. done.
  - intros line. rewrite recognized_marker_eq. intros [= E].
    rewrite add_tex_syntax_cases. cbv zeta. rewrite E. done.
  - intros tail. rewrite add_tex_syntax_cases. done.
  - intros tail. rewrite add_tex_syntax_cases. done.
Qed.

Lemma br_expansions_ignore_text_samples :
  add_tex_syntax "-br tail" = Ok "$$$$"
  /\ add_tex_syntax "-bbr other tail" = Ok "$$ $$".
Proof.
  split.
  - apply (proj1 br_expansions_ignore_text "-br tail").
    vm_compute. reflexivity.
  - apply (proj1 (proj2 br_expansions_ignore_text) "-bbr other tail").
    vm_compute. reflexivity.
Defined.

(** C7: when the marker found is [-bp], [-bf] or [-und] and the text found is
    [t], the output is the expansion of the marker, [t], one closing brace,
    and then a second closing brace if the marker is in
    [needs_2nd_close_brace] and the line-continuation token otherwise; that
    set holds [-und] only. *)
Theorem marker_expansion_and_closing (line m t : string) :
  recognized_marker line = Ok (Some m) ->
  remaining_text line = Ok (Some t) ->
  In m ["-bp"; "-bf"; "-und"] ->
  exists template,
    getitem mapping (Some m) = Ok template
    /\ add_tex_syntax line
       = Ok (template ++ t ++ brace.close ++
             (if bool_decide (m ∈ needs_2nd_close_brace)
              then brace.close else common.end_slash))
    /\ (m ∈ needs_2nd_close_brace <-> m = "-und").
Proof.
  rewrite recognized_marker_eq, remaining_text_eq.
  intros [= Em] [= Et] Hm.
  assert (exists template, Re.assoc m mapping = Some template
          /\ String.eqb m "-br" = false /\ String.eqb m "-bbr" = false
          /\ String.eqb m "" = false) as (template & Ha & E1 & E2 & E3).
  { simpl in Hm. destruct Hm as [<-|[<-|[<-|[]]]]; by eexists. }
  exists template. split; [|split].
  - unfold getitem. rewrite Ha. done.
  - rewrite add_tex_syntax_cases. cbv zeta.
    rewrite Em, Et, E1, E2, E3, Ha. done.
  - unfold needs_2nd_close_brace. apply elem_of_singleton.
Qed.

Lemma marker_expansion_and_closing_examples :
  add_tex_syntax "-und important"
  = Ok ("\underline{\large\text{" ++ "important" ++ brace.close ++ brace.close)
  /\ add_tex_syntax "-bf title"
     = Ok ("\large\textbf{" ++ "title" ++ brace.close ++ common.end_slash).
Proof.
  split.
  - destruct (marker_expansion_and_closing "-und important" "-und" "important")
      as (template & Ht & Hout & _).
    + vm_compute. reflexivity.
    + vm_compute. reflexivity.
    + simpl. tauto.
    + rewrite Hout. vm_compute in Ht. injection Ht as <-.
      vm_compute. reflexivity.
  - destruct (marker_expansion_and_closing "-bf title" "-bf" "title")
      as (template & Ht & Hout & _).
    + vm_compute. reflexivity.
    + vm_compute. reflexivity.
    + simpl. tauto.
    + rewrite Hout. vm_compute in Ht. injection Ht as <-.
      vm_compute. reflexivity.
Defined.

(** C9: for every key [m] of [mapping] and every text [t] without a newline,
    the output for the line [m], a space, [t] starts with the expansion of
    [m]; and equal lines give equal outputs. *)
Theorem marked_line_starts_with_expansion (m t : string) :
  In m (keys mapping) ->
  str_in nl t = false ->
  (exists template out,
     getitem mapping (Some m) = Ok template
     /\ add_tex_syntax (m ++ " " ++ t) = Ok out
     /\ String.prefix template out = true)
  /\ (forall line1 line2,
        line1 = line2 -> add_tex_syntax line1 = add_tex_syntax line2).
Proof.
  intros Hm _. split; [|by intros ? ? ->].
  assert (exists template, Re.assoc m mapping = Some template) as [v Hv].
  { simpl in Hm. destruct Hm as [<-|[<-|[<-|[<-|[<-|[]]]]]]; by eexists. }
  destruct (add_tex_syntax_prefix (m ++ " " ++ t) v) as (out & Ho & Hp).
  { rewrite marker_of_marked by done. done. }
  exists v, out. split; [|done]. unfold getitem. rewrite Hv. done.
Qed.

Lemma marked_line_starts_with_expansion_bp :
  exists out,
    add_tex_syntax "-bp first item" = Ok out
    /\ String.prefix "\bullet\large\text{ " out = true.
Proof.
  destruct (marked_line_starts_with_expansion "-bp" "first item")
    as [(template & out & Ht & Ho & Hp) _].
  - simpl. tauto.
  - vm_compute. reflexivity.
  - exists out. split; [exact Ho|].
    vm_compute in Ht. injection Ht as <-. exact Hp.
Defined.

(** ** The matcher against the declarative reading of patterns *)

Section MatcherMeaning.

Import Re.

Lemma rep_max_sound {A} cs s (k : string -> string -> option A) m :
  rep_max cs s k = Some m ->
  exists w r,
    s = w ++ r /\ forall_chars (cs_mem cs) w = true /\ k w r = Some m.
Proof.
  revert k. induction s as [|c s IH]; intros k; simpl.
  - intros H. by exists "", "".
  - destruct (cs_mem cs c) eqn:Ec; [|intros H; by exists "", (String c s)].
    destruct (rep_max cs s _) as [m'|] eqn:E.
    + intros [= ->]. apply IH in E as (w & r & -> & Hw & Hk).
      exists (String c w), r. simpl. rewrite Ec, Hw. done.
    + intros H. by exists "", (String c s).
Qed.

Lemma rep_min_sound {A} cs s (k : string -> string -> option A) m :
  rep_min cs s k = Some m ->
  exists w r,
    s = w ++ r /\ forall_chars (cs_mem cs) w = true /\ k w r = Some m.
Proof.
  revert k. induction s as [|c s IH]; intros k; simpl.
  - destruct (k "" "") eqn:E; [|done]. intros [= ->]. by exists "", "".
  - destruct (k "" (String c s)) eqn:E.
    { intros [= ->]. by exists "", (String c s). }
    destruct (cs_mem cs c) eqn:Ec; [|done].
    intros H. apply IH in H as (w & r & -> & Hw & Hk).
    exists (String c w), r. simpl. rewrite Ec, Hw. done.
Qed.

(** Whatever the matcher returns comes from a match of the pattern. *)
Lemma run_sound r st k m :
  run r st k = Some m ->
  exists w st', matches r st w st' /\ k w st' = Some m.
Proof.
  revert st k. induction r as [|cs| | |r1 IH1 r2 IH2|r1 IH1 r2 IH2
                               |i r IH|r IH|g cs]; intros st k; simpl.
  - intros H. exists "", st. split; [constructor|done].
  - destruct (rest st) as [|c s'] eqn:Er; [done|].
    destruct (cs_mem cs c) eqn:Ec; [|done].
    intros H. eexists _, _. split; [by apply M_One|done].
  - destruct (pos st =? 0)%nat eqn:Ep; [|done].
    intros H. exists "", st. split; [|done].
    apply M_Bol. by apply Nat.eqb_eq.
  - destruct (rest st) as [|c [|d s']] eqn:Er; [| |done].
    + intros H. exists "", st. split; [|done]. apply M_Eol. by left.
    + destruct (Ascii.eqb_spec c NL) as [->|_]; [|done].
      intros H. exists "", st. split; [|done]. apply M_Eol. by right.
  - intros H. apply IH1 in H as (w1 & st1 & M1 & H).
    apply IH2 in H as (w2 & st2 & M2 & H).
    exists (w1 ++ w2), st2. split; [by eapply M_Seq|done].
  - destruct (run r1 st k) as [m'|] eqn:E.
    + intros [= ->]. apply IH1 in E as (w & st' & M & H).
      exists w, st'. split; [by apply M_AltL|done].
    + intros H. apply IH2 in H as (w & st' & M & H).
      exists w, st'. split; [by apply M_AltR|done].
  - intros H. apply IH in H as (w & st' & M & H).
    eexists _, _. split; [by apply M_Group|done].
  - destruct (run r st k) as [m'|] eqn:E.
    + intros [= ->]. apply IH in E as (w & st' & M & H).
      exists w, st'. split; [by apply M_OptSome|done].
    + intros H. exists "", st. split; [apply M_OptNone|done].
  - destruct g; intros H.
    + apply rep_max_sound in H as (w & s' & Hs & Hw & H).
      eexists _, _. split; [by apply M_Star|done].
    + apply rep_min_sound in H as (w & s' & Hs & Hw & H).
      eexists _, _. split; [by apply M_Star|done].
Qed.

Lemma rep_max_complete {A} cs w r (k : string -> string -> option A) :
  forall_chars (cs_mem cs) w = true ->
  is_Some (k w r) -> is_Some (rep_max cs (w ++ r) k).
Proof.
  revert k. induction w as [|c w IH]; intros k Hw Hk; simpl in *.
  - destruct r as [|c r]; simpl; [done|].
    destruct (cs_mem cs c); [|done].
    destruct (rep_max cs r _); [by eexists|done].
  - apply andb_true_iff in Hw as [Hc Hw]. rewrite Hc.
    destruct (IH (fun w r => k (String c w) r) Hw Hk) as [m ->].
    by eexists.
Qed.

Lemma rep_min_complete {A} cs w r (k : string -> string -> option A) :
  forall_chars (cs_mem cs) w = true ->
  is_Some (k w r) -> is_Some (rep_min cs (w ++ r) k).
Proof.
  revert k. induction w as [|c w IH]; intros k Hw Hk; simpl in *.
  - destruct r as [|c r]; simpl; destruct Hk as [m ->]; by eexists.
  - apply andb_true_iff in Hw as [Hc Hw].
    destruct (k "" (String c (w ++ r))); [by eexists|].
    rewrite Hc. apply (IH (fun w r => k (String c w) r) Hw Hk).
Qed.

(** The matcher finds a match whenever the pattern has one after which the
    rest succeeds. *)
Lemma run_complete r st w st' :
  matches r st w st' ->
  forall k, is_Some (k w st') -> is_Some (run r st k).
Proof.
  induction 1 as [st|cs st c s' Hr Hc|st Hp|st Hr
                  |r1 r2 st w1 st1 w2 st2 _ IH1 _ IH2
                  |r1 r2 st w st' _ IH|r1 r2 st w st' _ IH
                  |i r st w st' _ IH|r st w st' _ IH|r st
                  |g cs st w s' Hw Hr]; intros k Hk; simpl.
  - done.
  - rewrite Hr, Hc. done.
  - rewrite Hp. done.
  - destruct Hr as [-> | ->]; done.
  - apply IH1, IH2, Hk.
  - destruct (IH k Hk) as [m ->]. by eexists.
  - destruct (run r1 st k); [by eexists|]. apply IH, Hk.
  - apply IH, Hk.
  - destruct (IH k Hk) as [m ->]. by eexists.
  - destruct (run r st k); [by eexists|done].
  - rewrite Hr. destruct g.
    + by apply rep_max_complete.
    + by apply rep_min_complete.
Qed.

(** Whether a pattern matches does not depend on the groups captured
    before. *)
Lemma matches_caps r st w st' :
  matches r st w st' ->
  forall cp, exists cp',
    matches r (MState (pos st) (rest st) cp) w
      (MState (pos st') (rest st') cp').
Proof.
  induction 1 as [st|cs st c s' Hr Hc|st Hp|st Hr
                  |r1 r2 st w1 st1 w2 st2 _ IH1 _ IH2
                  |r1 r2 st w st' _ IH|r1 r2 st w st' _ IH
                  |i r st w st' _ IH|r st w st' _ IH|r st
                  |g cs st w s' Hw Hr]; intros cp.
  - eexists. constructor.
  - eexists. by apply (M_One cs (MState (pos st) (rest st) cp)).
  - eexists. by constructor.
  - eexists. by constructor.
  - destruct (IH1 cp) as [cp1 M1]. destruct (IH2 cp1) as [cp2 M2].
    eexists. eapply M_Seq; done.
  - destruct (IH cp) as [cp' M]. eexists. apply M_AltL, M.
  - destruct (IH cp) as [cp' M]. eexists. apply M_AltR, M.
  - destruct (IH cp) as [cp' M]. eexists.
    apply (M_Group i _ _ _ _ M).
  - destruct (IH cp) as [cp' M]. eexists. apply M_OptSome, M.
  - eexists. apply M_OptNone.
  - eexists. by apply (M_Star g cs (MState (pos st) (rest st) cp)).
Qed.

Lemma run_caps_blind r st cp k k' :
  (forall w s, is_Some (k' w s)) ->
  is_Some (run r st k) ->
  is_Some (run r (MState (pos st) (rest st) cp) k').
Proof.
  intros Hk' [m H]. apply run_sound in H as (w & st' & M & _).
  destruct (matches_caps _ _ _ _ M cp) as [cp' M'].
  apply (run_complete _ _ _ _ M'), Hk'.
Qed.

End MatcherMeaning.

(** ** The match of [infile_pattern] on a path *)

Section PathMatch.

Import Re.

Lemma infile_pattern_compiled : compile infile_pattern = Some path_pattern.
Proof. vm_compute. reflexivity. Qed.

Lemma run_seq r1 r2 st k :
  run (Seq r1 r2) st k =
  run r1 st (fun w1 st1 => run r2 st1 (fun w2 st2 => k (w1 ++ w2) st2)).
Proof. reflexivity. Qed.

Lemma append_assoc (a b c : string) : (a ++ b) ++ c = a ++ b ++ c.
Proof. induction a as [|x a IH]; simpl; [done|]. rewrite IH. done. Qed.

Lemma forall_chars_ext f g s :
  (forall c, f c = g c) -> forall_chars f s = forall_chars g s.
Proof.
  intros H. induction s as [|c s IH]; simpl; [done|]. rewrite H, IH. done.
Qed.

Lemma forall_chars_app f a b :
  forall_chars f (a ++ b) = forall_chars f a && forall_chars f b.
Proof.
  induction a as [|c a IH]; simpl; [done|].
  rewrite IH, andb_assoc. done.
Qed.

(** Take apart every match of a pattern whose shape is known. *)
Ltac invert_matches :=
  repeat match goal with
  | H : matches (Seq _ _) _ _ _ |- _ => inversion H; subst; clear H
  | H : matches (Group _ _) _ _ _ |- _ => inversion H; subst; clear H
  | H : matches Eps _ _ _ |- _ => inversion H; subst; clear H
  | H : matches (Star _ _) _ _ _ |- _ => inversion H; subst; clear H
  | H : matches (One _) _ _ _ |- _ => inversion H; subst; clear H
  | H : matches Eol _ _ _ |- _ => inversion H; subst; clear H
  end.

(** A lazy optional group is entered whenever the rest of the pattern can
    succeed at all, so the group is set in every match. *)
Lemma run_lazy_group i cs st k m :
  (forall w st1 cp,
     is_Some (k w st1) -> is_Some (k w (MState (pos st1) (rest st1) cp))) ->
  run (Opt (Group i (Seq (Star false cs) Eps))) st k = Some m ->
  exists w s',
    rest st = w ++ s'
    /\ forall_chars (cs_mem cs) w = true
    /\ k w (set_cap i w (MState (pos st + String.length w) s' (caps st)))
       = Some m.
Proof.
  intros Hk. simpl.
  destruct (rep_min cs (rest st) _) as [m'|] eqn:E.
  - intros [= ->]. apply rep_min_sound in E as (w & s' & Hs & Hw & H).
    rewrite append_nil_r in H. by exists w, s'.
  - intros H.
    assert (is_Some (k "" st)) as Hs by (by eexists).
    apply (Hk _ _ (<[i := ""]> (caps st))) in Hs.
    pose proof (rep_min_complete cs "" (rest st)
      (fun w s' => k (w ++ "")
         (set_cap i (w ++ "")
            (MState (pos st + String.length w) s' (caps st))))
      eq_refl) as Hc.
    simpl in Hc. rewrite Nat.add_0_r in Hc.
    destruct (Hc Hs) as [x Hx]. rewrite E in Hx. done.
Qed.

(** The shape of every match of the path pattern. *)
Lemma path_match_shape path mt :
  match_tree path_pattern path = Some mt ->
  exists o n e tail,
    path = o ++ n ++ "." ++ e ++ tail
    /\ (tail = "" \/ tail = nl)
    /\ forall_chars is_word e = true
    /\ groups mt !! 1 = Some o
    /\ groups mt !! 2 = Some n
    /\ names mt = groupindex path_pattern.
Proof.
  unfold match_tree.
  destruct (run _ _ _) as [st|] eqn:E; [|done]. intros [= <-].
  change (tree path_pattern)
    with (Seq Bol (Seq origin_group name_and_ext)) in E.
  rewrite run_seq in E.
  apply run_sound in E as (w1 & st1 & M1 & E). inversion M1; subst.
  rewrite run_seq in E.
  apply run_lazy_group in E as (o & s1 & Hp & _ & E).
  2:{ intros w st1 cp Hs. eapply run_caps_blind; [|exact Hs].
      intros; by eexists. }
  apply run_sound in E as (w2 & st2 & M2 & E).
  injection E as <-. simpl in Hp. subst path.
  unfold name_and_ext in M2. invert_matches.
  simpl in *. subst.
  rewrite orb_false_r in H5. apply Ascii.eqb_eq in H5 as ->.
  exists o, w5, w2, s'0. split; [done|]. split; [done|]. split.
  { rewrite <- H2. apply forall_chars_ext. intros c. simpl.
    rewrite orb_false_r. done. }
  rewrite !append_nil_r. repeat split; by simplify_map_eq.
Qed.

(** A path made of any text without a newline, a dot and word characters
    is matched. *)
Lemma path_match_exists stem e :
  forall_chars not_newline stem = true ->
  forall_chars is_word e = true ->
  is_Some (match_tree path_pattern (stem ++ "." ++ e)).
Proof.
  intros Hs He. unfold match_tree.
  assert (forall_chars (cs_mem [CDot]) stem = true) as Hs'.
  { rewrite <- Hs. apply forall_chars_ext. intros c. simpl.
    unfold not_newline. rewrite orb_false_r. done. }
  assert (forall_chars (cs_mem [CWord]) e = true) as He'.
  { rewrite <- He. apply forall_chars_ext. intros c. simpl.
    rewrite orb_false_r. done. }
  set (st0 := MState 0 (stem ++ "." ++ e) ∅).
  assert (exists w st', matches (tree path_pattern) st0 w st')
    as (w & st' & M).
  { eexists _, _. simpl.
    eapply M_Seq; [by apply M_Bol|].
    eapply M_Seq.
    { apply M_OptSome, M_Group.
      eapply M_Seq; [|apply M_Eps].
      by apply (M_Star false [CDot] st0 stem ("." ++ e)). }
    eapply M_Seq.
    { apply M_Group. eapply M_Seq; [|apply M_Eps].
      by apply (M_Star true name_chars _ "" ("." ++ e)). }
    eapply M_Seq.
    { apply M_Group. eapply M_Seq; [by eapply M_One|].
      eapply M_Seq; [|apply M_Eps].
      apply (M_Star true [CWord] _ e ""); [done|].
      simpl. by rewrite append_nil_r. }
    eapply M_Seq; [|apply M_Eps].
    apply M_Eol. by left. }
  destruct (run_complete _ _ _ _ M (fun w st => Some (set_cap 0 w st)))
    as [m Hm]; [by eexists|].
  rewrite Hm. by eexists.
Qed.

(** A text ends in at most one way with a dot followed by word characters
    and an optional final newline. *)
Lemma dot_suffix_unique a e b e' tail :
  forall_chars is_word e = true ->
  forall_chars is_word e' = true ->
  tail = "" \/ tail = nl ->
  a ++ "." ++ e = b ++ "." ++ e' ++ tail ->
  a = b.
Proof.
  intros He He' Ht.
  assert (forall x y, forall_chars is_word (x ++ String "." y) = false)
    as Hdot.
  { intros x y. rewrite forall_chars_app. simpl.
    destruct (forall_chars is_word x); done. }
  assert (forall x y, x ++ String "." y <> e' ++ tail) as Hno.
  { intros x y Heq.
    assert (forall_chars (fun c => is_word c || Ascii.eqb c NL)
              (e' ++ tail) = true) as H1.
    { rewrite forall_chars_app. apply andb_true_iff. split.
      - clear -He'. induction e' as [|c e' IH]; simpl in *; [done|].
        apply andb_true_iff in He' as [-> ?]. simpl. auto.
      - destruct Ht as [-> | ->]; done. }
    rewrite <- Heq, forall_chars_app in H1. simpl in H1.
    destruct (forall_chars _ x); done. }
  revert b. induction a as [|c a IH]; intros [|d b] Heq; simpl in Heq.
  - done.
  - injection Heq as <- Heq. rewrite Heq, Hdot in He. done.
  - injection Heq as -> Heq. by destruct (Hno a e).
  - injection Heq as <- Heq. f_equal. by apply IH.
Qed.

Lemma derived_outfile_of_stem stem e :
  forall_chars not_newline stem = true ->
  forall_chars is_word e = true ->
  exists outfile_name,
    derived_outfile (stem ++ "." ++ e)
    = Ok (outfile_name, stem ++ "_texit_out.txt").
Proof.
  intros Hs He. unfold derived_outfile, re_match.
  rewrite infile_pattern_compiled.
  destruct (path_match_exists stem e Hs He) as [mt Hmt].
  destruct (path_match_shape _ _ Hmt)
    as (o & n & e' & tail & Hp & Ht & He' & H1 & H2 & Hn).
  cbn [rbind]. rewrite Hmt. unfold group. rewrite Hn. simpl.
  rewrite H1, H2. simpl. exists (n ++ "_texit_out.txt").
  rewrite <- (append_assoc o n) in Hp.
  apply dot_suffix_unique in Hp; [|done..].
  rewrite Hp, append_assoc. done.
Qed.

End PathMatch.

(** ** The derived output path *)

(** C10, as stated, fails on a path whose extension is not made of word
    characters: for [/a/b/notes.txt~] no output path is derived, and the run
    ends with [AttributeError]. *)
Lemma backup_file_path_has_no_outfile :
  derived_outfile "/a/b/notes.txt~" = Raise AttributeError
  /\ (main ["texit.py"; "/a/b/notes.txt~"]
        (World {[ "/a/b/notes.txt~" := "hello" ]} [] [] "")).1
     = Raise AttributeError.
Proof. vm_compute. split; reflexivity. Qed.

(** C10 (amended): for every input path without a newline that consists of a
    directory prefix, a base name, a dot and an extension made of word
    characters (letters, digits, underscore), the derived output path is the
    directory prefix followed by the base name and [_texit_out.txt]. *)
Theorem outfile_path_derivation (dir base e : string) :
  forall_chars not_newline (dir ++ base) = true ->
  forall_chars is_word e = true ->
  exists outfile_name,
    derived_outfile (dir ++ base ++ "." ++ e)
    = Ok (outfile_name, dir ++ base ++ "_texit_out.txt").
Proof.
  intros Hs He.
  destruct (derived_outfile_of_stem (dir ++ base) e Hs He) as [name H].
  exists name. rewrite !append_assoc in H. exact H.
Qed.

Lemma outfile_path_derivation_notes :
  exists outfile_name,
    derived_outfile "/a/b/notes.txt"
    = Ok (outfile_name, "/a/b/notes_texit_out.txt").
Proof.
  apply (outfile_path_derivation "/a/b/" "notes" "txt").
  - vm_compute. reflexivity.
  - vm_compute. reflexivity.
Defined.

(** ** Converting a file *)

Section Conversion.

Lemma span_all cs s : forall_chars (Re.cs_mem cs) (span cs s).1 = true.
Proof.
  induction s as [|c s IH]; simpl; [done|].
  destruct (Re.cs_mem cs c) eqn:Ec; [|done].
  destruct (span cs s) as [w r]. simpl in *. rewrite Ec, IH. done.
Qed.

Lemma text_of_no_newline line : forall_chars not_newline (text_of line) = true.
Proof.
  unfold text_of. erewrite forall_chars_ext; [apply (span_all [Re.CDot])|].
  intros c. simpl. rewrite orb_false_r. done.
Qed.

Lemma mapping_no_newline k v :
  Re.assoc k mapping = Some v -> forall_chars not_newline v = true.
Proof.
  unfold mapping. cbn [Re.assoc].
  repeat (destruct (String.eqb k _); [intros [= <-]; reflexivity|]).
  done.
Qed.

(** The transformer returns a string on every line, and that string holds
    no newline. *)
Lemma add_tex_syntax_ok line :
  exists out,
    add_tex_syntax line = Ok out /\ forall_chars not_newline out = true.
Proof.
  rewrite add_tex_syntax_cases. cbv zeta.
  pose proof (text_of_no_newline line) as Ht.
  destruct (String.eqb _ "-br"); [by eexists|].
  destruct (String.eqb _ "-bbr"); [by eexists|].
  destruct (String.eqb_spec (marker_of line) "") as [E|E].
  - destruct (text_of line) as [|c t] eqn:Et; [by eexists|].
    eexists. split; [done|]. rewrite !forall_chars_app, Ht. done.
  - destruct (marker_of_cases line) as [?|Hin]; [done|].
    destruct (Re.assoc (marker_of line) mapping) as [v|] eqn:Ev.
    + eexists. split; [done|].
      rewrite !forall_chars_app, Ht, (mapping_no_newline _ _ Ev).
      destruct (bool_decide _); done.
    + simpl in Hin.
      destruct Hin as [H|[H|[H|[H|[H|[]]]]]]; rewrite <- H in Ev; done.
Qed.

Lemma readline_empty buf r : readline buf = ("", r) -> buf = "" /\ r = "".
Proof.
  destruct buf as [|c b]; simpl; [by intros [= <-]|].
  destruct (Ascii.eqb c NL); [done|]. destruct (readline b); done.
Qed.

Lemma readline_file_lines buf line left :
  readline buf = (line, left) -> line <> "" ->
  file_lines buf = line :: file_lines left.
Proof.
  revert line left. induction buf as [|c b IH]; intros line left; simpl.
  - by intros [= <- <-].
  - destruct (Ascii.eqb c NL); [by intros [= <- <-]|].
    destruct (readline b) as [l r] eqn:E. intros [= <- <-] _.
    destruct l as [|d l].
    + apply readline_empty in E as [-> ->]. done.
    + rewrite (IH _ _ eq_refl); done.
Qed.

Lemma process_files_spec infile outfile :
  exists outs,
    Forall2 (fun line out => add_tex_syntax line = Ok out)
      (file_lines infile) outs
    /\ process_files infile outfile
       = Ok ("", outfile ++ join (map (fun out => out ++ nl) outs)).
Proof.
  funelim (process_files infile outfile).
  - clear H Heqcall. apply readline_empty in e as [-> ->]. exists [].
    split; [constructor|]. simpl. rewrite append_nil_r. done.
  - clear H0 Heqcall. destruct H as (outs & Hall & Hrun).
    exists (out :: outs). split.
    + rewrite (readline_file_lines _ _ _ e) by done. by constructor.
    + rewrite Hrun. simpl. rewrite !append_assoc. done.
  - destruct (add_tex_syntax_ok (String a s)) as (out & Hout & _).
    rewrite Hout in Heq. done.
Qed.

Lemma file_lines_line line buf :
  forall_chars not_newline line = true ->
  file_lines (line ++ nl ++ buf) = (line ++ nl) :: file_lines buf.
Proof.
  intros Hl. induction line as [|c l IH]; simpl in *; [done|].
  apply andb_true_iff in Hl as [Hc Hl]. unfold not_newline in Hc.
  destruct (Ascii.eqb c NL); [done|]. rewrite (IH Hl). done.
Qed.

Lemma file_lines_outs outs buf :
  Forall (fun out => forall_chars not_newline out = true) outs ->
  file_lines (join (map (fun out => out ++ nl) outs) ++ buf)
  = app (map (fun out => out ++ nl) outs) (file_lines buf).
Proof.
  induction 1 as [|out outs Ho _ IH]; simpl; [done|].
  rewrite !append_assoc, file_lines_line, IH by done. done.
Qed.

Lemma append_cancel_l (a b c : string) : a ++ b = a ++ c -> b = c.
Proof. induction a as [|x a IH]; simpl; [done|]. intros [= H]. auto. Qed.

(** The output path is never the input path. *)
Lemma derived_outfile_differs path outname outpath :
  derived_outfile path = Ok (outname, outpath) -> outpath <> path.
Proof.
  unfold derived_outfile, Re.re_match. rewrite infile_pattern_compiled.
  cbn [rbind]. destruct (Re.match_tree path_pattern path) as [mt|] eqn:Em;
    [|done].
  destruct (path_match_shape _ _ Em)
    as (o & n & e & tail & Hp & _ & _ & H1 & H2 & Hn).
  unfold Re.group. rewrite Hn. simpl. rewrite H1, H2. simpl.
  intros [= _ <-] Heq. rewrite Hp in Heq.
  apply append_cancel_l, append_cancel_l in Heq. done.
Qed.

Lemma overwrite_loop_yes answer pending out :
  lower answer = "y" ->
  overwrite_loop (answer :: pending) out
  = (Ok true, pending, (out ++ [overwrite_prompt])%list).
Proof. intros H. cbn [overwrite_loop]. rewrite H. reflexivity. Qed.

Lemma overwrite_loop_allowed pending out :
  allows_overwrite pending = true ->
  exists pending' out', overwrite_loop pending out = (Ok true, pending', out').
Proof.
  revert out. induction pending as [|answer pending IH]; intros out; [done|].
  cbn [allows_overwrite overwrite_loop].
  destruct (str_in (lower answer) "n"); [done|].
  destruct (str_in (lower answer) "y"); [by eexists _, _|].
  intros H. apply IH, H.
Qed.

Lemma str_in_single x c :
  str_in x (String c "") = true -> x = "" \/ x = String c "".
Proof.
  destruct x as [|a [|b x]]; simpl; [by left| |].
  - destruct (ascii_dec a c) as [->|_]; [by right|done].
  - destruct (ascii_dec a c); done.
Qed.

Lemma lower_char_is_n a :
  lower_char a = "n"%char -> a = "n"%char \/ a = "N"%char.
Proof.
  destruct a as [[] [] [] [] [] [] [] []]; vm_compute; intros H;
    try discriminate H; auto.
Qed.

Lemma lower_char_is_y a :
  lower_char a = "y"%char -> a = "y"%char \/ a = "Y"%char.
Proof.
  destruct a as [[] [] [] [] [] [] [] []]; vm_compute; intros H;
    try discriminate H; auto.
Qed.

Lemma overwrite_loop_no answer pending out :
  lower answer = "n" ->
  overwrite_loop (answer :: pending) out
  = (Raise (SystemExit (inr goodbye)), pending,
     (out ++ [overwrite_prompt])%list).
Proof. intros H. cbn [overwrite_loop]. rewrite H. reflexivity. Qed.

(** Any answer other than the empty one, [n], [N], [y] and [Y] is refused
    and the question is asked again. *)
Lemma overwrite_loop_again answer pending out :
  ~ In answer [""; "n"; "N"; "y"; "Y"] ->
  overwrite_loop (answer :: pending) out
  = overwrite_loop pending
      (out ++ [overwrite_prompt;
               ("Enter a 'y' for yes, or 'n' for no." ++ nl)%string])%list.
Proof.
  intros Hno. cbn [overwrite_loop].
  destruct (str_in (lower answer) "n") eqn:En.
  { exfalso. apply Hno. apply str_in_single in En.
    destruct answer as [|a [|b x]]; simpl in *; [tauto| |by destruct En].
    destruct En as [En|En]; [done|]. injection En as En.
    apply lower_char_is_n in En as [-> | ->]; tauto. }
  destruct (str_in (lower answer) "y") eqn:Ey.
  { exfalso. apply Hno. apply str_in_single in Ey.
    destruct answer as [|a [|b x]]; simpl in *; [tauto| |by destruct Ey].
    destruct Ey as [Ey|Ey]; [done|]. injection Ey as Ey.
    apply lower_char_is_y in Ey as [-> | ->]; tauto. }
  rewrite <- app_assoc. done.
Qed.

End Conversion.

(** ** The runs of [main] *)

Section DriverMore.

(** The run of [main] once the input file is found and the output path is
    derived. *)
Lemma main_run prog path content name out files w :
  fs w !! path = Some content ->
  derived_outfile path = Ok (name, out) ->
  process_files (universal_newlines content) ("$$" ++ nl) = Ok files ->
  main [prog; path] w =
  let text := files.2 ++ "$$" ++ nl in
  let report := (summary path name out ++ nl)%string in
  match fs w !! out with
  | None =>
      (Ok tt,
       World (<[out := text]> (fs w)) (stdin w)
         (stdout w ++ [report])%list path)
  | Some _ =>
      match overwrite_loop (stdin w)
              (stdout w ++ [(exists_notice out ++ nl)%string])%list with
      | (Ok b, pending, shown) =>
          (Ok tt,
           World (<[out := text]> (fs w)) pending
             (if b
              then ((shown ++ [("Overwrite successful!" ++ nl)%string])
                    ++ [report])%list
              else (shown ++ [report])%list) path)
      | (Raise e, pending, shown) =>
          (Raise e, World (fs w) pending shown path)
      end
  end.
Proof.
  intros Hin Hd Hrun.
  pose proof (derived_outfile_differs _ _ _ Hd) as Hne.
  unfold derived_outfile in Hd.
  destruct (Re.re_match infile_pattern path) as [[mt|]|] eqn:Em; [|done..].
  cbn [rbind] in Hd.
  destruct (Re.group mt "origin") as [[o|]|] eqn:Eo;
    destruct (Re.group mt "name") as [[n|]|] eqn:En;
    cbn [rbind py_add] in Hd; try done.
  injection Hd as <- <-.
  unfold main, io_bind, lift, set_infile_name, get_infile_name,
    path_exists, io_ret, open_w, open_r, close_w.
  cbn [length Nat.eqb negb nth fs stdin stdout infile_name].
  rewrite Hin, bool_decide_eq_true_2 by (by eexists).
  cbn [negb]. rewrite Em, Eo, En. cbn [py_add].
  change (("" ++ common.tex_dollars) ++ nl) with ("$$" ++ nl).
  cbv zeta.
  destruct (fs w !! (o ++ n ++ "_texit_out.txt")) as [old|] eqn:Eout.
  - rewrite bool_decide_eq_true_2 by (by eexists).
    unfold print, ask_overwrite. cbn [fs stdin stdout infile_name].
    unfold exists_notice.
    destruct (overwrite_loop _ _) as [[[b|e] pending] shown]; [|done].
    cbn [fs stdin stdout infile_name].
    rewrite lookup_insert_ne, Hin, Hrun by done.
    destruct b; cbn [fs stdin stdout infile_name];
      rewrite insert_insert_eq, (append_assoc _ "$$" nl); done.
  - rewrite bool_decide_eq_false_2
      by (cbn [fs]; rewrite Eout; apply is_Some_None).
    cbn [fs stdin stdout infile_name].
    rewrite lookup_insert_ne, Hin, Hrun by done.
    unfold print. cbn [fs stdin stdout infile_name].
    rewrite insert_insert_eq, (append_assoc _ "$$" nl). done.
Qed.

(** The run of [main] when the path gives no output path. *)
Lemma main_stops_early prog path content e w :
  fs w !! path = Some content ->
  derived_outfile path = Raise e ->
  main [prog; path] w
  = (Raise e, World (fs w) (stdin w) (stdout w) path).
Proof.
  intros Hin Hd. unfold derived_outfile in Hd.
  unfold main, io_bind, lift, set_infile_name, get_infile_name,
    path_exists, io_ret, io_raise.
  cbn [length Nat.eqb negb nth fs stdin stdout infile_name].
  rewrite Hin, bool_decide_eq_true_2 by (by eexists). cbn [negb].
  destruct (Re.re_match infile_pattern path) as [[mt|]|];
    cbn [rbind] in Hd; [|by injection Hd as <-..].
  destruct (Re.group mt "origin") as [[o|]|];
    destruct (Re.group mt "name") as [[n|]|];
    cbn [rbind py_add] in Hd; try done; by injection Hd as <-.
Qed.

Lemma no_dot_no_match path :
  forall_chars (fun c => negb (Ascii.eqb c ".")) path = true ->
  derived_outfile path = Raise AttributeError.
Proof.
  intros Hp. unfold derived_outfile, Re.re_match.
  rewrite infile_pattern_compiled. cbn [rbind].
  destruct (Re.match_tree path_pattern path) as [mt|] eqn:Em; [|done].
  destruct (path_match_shape _ _ Em) as (o & n & e & tail & Hs & _).
  rewrite Hs, !forall_chars_app in Hp. simpl in Hp.
  destruct (forall_chars _ o), (forall_chars _ n); done.
Qed.

Ltac invert_path_matches :=
  repeat match goal with
  | H : matches (Re.Seq _ _) _ _ _ |- _ => inversion H; subst; clear H
  | H : matches (Re.Group _ _) _ _ _ |- _ => inversion H; subst; clear H
  | H : matches Re.Eps _ _ _ |- _ => inversion H; subst; clear H
  | H : matches (Re.Star _ _) _ _ _ |- _ => inversion H; subst; clear H
  | H : matches (Re.One _) _ _ _ |- _ => inversion H; subst; clear H
  | H : matches Re.Eol _ _ _ |- _ => inversion H; subst; clear H
  end.

(** The three parts of a matched path, with the characters each may hold. *)
Lemma path_match_parts path mt :
  Re.match_tree path_pattern path = Some mt ->
  exists o n e tail,
    path = o ++ n ++ "." ++ e ++ tail
    /\ (tail = "" \/ tail = nl)
    /\ forall_chars not_newline o = true
    /\ forall_chars (Re.cs_mem name_chars) n = true
    /\ forall_chars is_word e = true
    /\ Re.groups mt !! 1 = Some o
    /\ Re.groups mt !! 2 = Some n
    /\ Re.names mt = Re.groupindex path_pattern.
Proof.
  unfold Re.match_tree.
  destruct (Re.run _ _ _) as [st|] eqn:E; [|done]. intros [= <-].
  change (Re.tree path_pattern)
    with (Re.Seq Re.Bol (Re.Seq origin_group name_and_ext)) in E.
  rewrite run_seq in E.
  apply run_sound in E as (w1 & st1 & M1 & E). inversion M1; subst.
  rewrite run_seq in E.
  apply run_lazy_group in E as (o & s1 & Hp & Ho & E).
  2:{ intros w st1 cp Hs. eapply run_caps_blind; [|exact Hs].
      intros; by eexists. }
  apply run_sound in E as (w2 & st2 & M2 & E).
  injection E as <-. simpl in Hp. subst path.
  unfold name_and_ext in M2. invert_path_matches.
  simpl in *. subst.
  rewrite orb_false_r in H5. apply Ascii.eqb_eq in H5 as ->.
  exists o, w5, w2, s'0. split; [done|]. split; [done|]. split.
  { rewrite <- Ho. apply forall_chars_ext. intros c. simpl.
    unfold not_newline. rewrite orb_false_r. done. }
  split; [done|]. split.
  { rewrite <- H2. apply forall_chars_ext. intros c. simpl.
    rewrite orb_false_r. done. }
  rewrite !append_nil_r. repeat split; by simplify_map_eq.
Qed.

End DriverMore.

(** ** Properties of the driver *)

(** C8: for an input file that reads as N lines (a line ends at a newline,
    at a carriage return with a newline, or at a carriage return), every run
    of [main] that ends normally leaves an output file of N+2 lines: the line
    [$$], the transformed input lines in order, each with its newline, and
    the line [$$]; and [main] does end normally whenever an output path is
    derived and the output file does not exist yet or the overwrite question
    ends with a yes. *)
Theorem output_file_has_two_more_lines
    (prog path content : string) (w : world) :
  fs w !! path = Some content ->
  let lines := file_lines (universal_newlines content) in
  (forall outname outpath,
     derived_outfile path = Ok (outname, outpath) ->
     fs w !! outpath = None \/ allows_overwrite (stdin w) = true ->
     exists w', main [prog; path] w = (Ok tt, w'))
  /\ (forall w',
        main [prog; path] w = (Ok tt, w') ->
        exists outname outpath outs text,
          derived_outfile path = Ok (outname, outpath)
          /\ Forall2 (fun line out => add_tex_syntax line = Ok out) lines outs
          /\ fs w' !! outpath = Some text
          /\ file_lines text
             = ("$$" ++ nl)
                 :: app (map (fun out => out ++ nl) outs) ["$$" ++ nl]
          /\ length (file_lines text) = length lines + 2).
Proof.
  intros Hin lines. subst lines.
  destruct (process_files_spec (universal_newlines content) ("$$" ++ nl))
    as (outs & Hall & Hrun).
  split.
  - intros outname outpath Hd Hfree.
    rewrite (main_run _ _ _ _ _ _ _ Hin Hd Hrun). cbv zeta.
    destruct (fs w !! outpath) as [old|]; [|by eexists].
    destruct Hfree as [?|Hyes]; [done|].
    edestruct overwrite_loop_allowed as (pending' & shown & ->); [exact Hyes|].
    by eexists.
  - intros w' Hmain.
    destruct (derived_outfile path) as [[outname outpath]|e] eqn:Hd.
    2:{ rewrite (main_stops_early _ _ _ _ _ Hin Hd) in Hmain. done. }
    rewrite (main_run _ _ _ _ _ _ _ Hin Hd Hrun) in Hmain.
    cbv zeta in Hmain. cbn [snd] in Hmain.
    set (text := (("$$" ++ nl) ++ join (map (fun out => out ++ nl) outs))
                 ++ "$$" ++ nl) in Hmain.
    assert (fs w' !! outpath = Some text) as Hout.
    { destruct (fs w !! outpath) as [old|].
      - destruct (overwrite_loop _ _) as [[[b|e] pending] shown]; [|done].
        injection Hmain as <-. cbn [fs]. apply lookup_insert_eq.
      - injection Hmain as <-. cbn [fs]. apply lookup_insert_eq. }
    assert (Forall (fun out => forall_chars not_newline out = true) outs)
      as Hnl.
    { clear -Hall.
      induction Hall as [|line out ls os H _ IH]; constructor; [|done].
      destruct (add_tex_syntax_ok line) as (out' & Ho & Hn).
      rewrite Ho in H. by injection H as <-. }
    assert (file_lines text
            = ("$$" ++ nl)
                :: app (map (fun out => out ++ nl) outs) ["$$" ++ nl])
      as Hlines.
    { subst text. rewrite !append_assoc, file_lines_line by done.
      rewrite file_lines_outs by done. done. }
    exists outname, outpath, outs, text.
    split; [done|]. split; [exact Hall|]. split; [exact Hout|].
    split; [exact Hlines|].
    rewrite Hlines. simpl. rewrite length_app, length_map. simpl.
    rewrite (Forall2_length _ _ _ Hall). lia.
Qed.

Lemma output_file_has_two_more_lines_notes :
  let w :=
    World
      {[ "/a/b/notes.txt" :=
           "-bf Title" ++ String CR nl ++ "hello" ++ String CR "-br" ]}
      [] [] "" in
  exists w' outs text,
    main ["texit.py"; "/a/b/notes.txt"] w = (Ok tt, w')
    /\ Forall2 (fun line out => add_tex_syntax line = Ok out)
         ["-bf Title" ++ nl; "hello" ++ nl; "-br"] outs
    /\ fs w' !! "/a/b/notes_texit_out.txt" = Some text
    /\ file_lines text
       = ("$$" ++ nl)
           :: app (map (fun out => out ++ nl) outs) ["$$" ++ nl]
    /\ length (file_lines text) = 3 + 2.
Proof.
  intros w.
  destruct (output_file_has_two_more_lines "texit.py" "/a/b/notes.txt"
              ("-bf Title" ++ String CR nl ++ "hello" ++ String CR "-br") w)
    as [Hends Hform].
  - vm_compute. reflexivity.
  - destruct (Hends "notes_texit_out.txt" "/a/b/notes_texit_out.txt")
      as [w' Hmain].
    + vm_compute. reflexivity.
    + left. vm_compute. reflexivity.
    + destruct (Hform w' Hmain)
        as (outname & outpath & outs & text & Hd & Hall & Hout & Hl & Hn).
      vm_compute in Hd. injection Hd as <- <-.
      exists w', outs, text. repeat split; assumption.
Defined.

(** C4: the overwrite question is to be asked again after every answer
    other than [y] and [n]; on the empty answer the loop instead ends the run
    like [n], with the goodbye message, no second question and no file
    changed ([str_in] holds of the empty string in any string). *)
Theorem empty_answer_ends_prompt :
  (forall pending out,
     overwrite_loop ("" :: pending) out
     = (Raise (SystemExit (inr goodbye)), pending,
        (out ++ [overwrite_prompt])%list))
  /\ (let w :=
        World {[ "/a/b/notes.txt" := "hello";
                 "/a/b/notes_texit_out.txt" := "old" ]}
          [""; "y"] [] "" in
      exists w',
        main ["texit.py"; "/a/b/notes.txt"] w
        = (Raise (SystemExit (inr goodbye)), w')
        /\ fs w' = fs w /\ stdin w' = ["y"]).
Proof.
  split; [reflexivity|].
  eexists. split; [vm_compute; reflexivity|]. split; reflexivity.
Qed.

(** ** Further properties of the line transformer *)

Section TransformerMore.

Lemma strip_prefix_app k r : Re.strip_prefix k (k ++ r) = Some r.
Proof.
  induction k as [|c k IH]; simpl; [done|]. rewrite Ascii.eqb_refl. done.
Qed.

Lemma strip_prefix_Some k line r :
  Re.strip_prefix k line = Some r -> line = k ++ r.
Proof.
  revert line. induction k as [|c k IH]; intros line; simpl.
  - by intros [= ->].
  - destruct line as [|b line]; [done|].
    destruct (Ascii.eqb_spec c b) as [->|_]; [|done].
    intros H. apply IH in H as ->. done.
Qed.

Lemma lex_marker_sound ks line :
  (lex_marker ks line = ("", line))
  \/ (In (lex_marker ks line).1 ks
      /\ line = (lex_marker ks line).1 ++ (lex_marker ks line).2).
Proof.
  induction ks as [|k ks IH]; simpl; [by left|].
  destruct (Re.strip_prefix k line) as [r|] eqn:E; simpl.
  - right. split; [by left|]. by apply strip_prefix_Some.
  - destruct IH as [IH|[IH1 IH2]]; [by left|right]. split; [by right|done].
Qed.

Lemma lex_marker_key m t :
  In m (keys mapping) -> lex_marker (keys mapping) (m ++ t) = (m, t).
Proof.
  simpl. intros [<-|[<-|[<-|[<-|[<-|[]]]]]]; reflexivity.
Qed.

Lemma span_rest_head cs s c t :
  (span cs s).2 = String c t -> Re.cs_mem cs c = false.
Proof.
  induction s as [|d s IH]; simpl; [done|].
  destruct (Re.cs_mem cs d) eqn:Ed.
  - destruct (span cs s) as [w r]. simpl in *. exact IH.
  - simpl. by intros [= <- _].
Qed.

Lemma span_word_head cs s c t :
  (span cs s).1 = String c t -> exists t', s = String c t'.
Proof.
  destruct s as [|d s]; simpl; [done|].
  destruct (Re.cs_mem cs d); [|done].
  destruct (span cs s) as [w r]. simpl. intros [= <- _]. by eexists.
Qed.

Lemma span_whole cs s :
  forall_chars (Re.cs_mem cs) s = true -> span cs s = (s, "").
Proof.
  induction s as [|c s IH]; simpl; [done|].
  intros H. apply andb_true_iff in H as [-> H]. rewrite (IH H). done.
Qed.

Lemma span_before_newline cs a rest :
  Re.cs_mem cs NL = false ->
  span cs (a ++ String NL rest)
  = ((span cs a).1, (span cs a).2 ++ String NL rest).
Proof.
  intros Hn. induction a as [|c a IH]; simpl.
  - rewrite Hn. done.
  - destruct (Re.cs_mem cs c); [|done].
    rewrite IH. destruct (span cs a). done.
Qed.

Lemma span_dot_newline a rest :
  (span [Re.CDot] (a ++ String NL rest)).1 = (span [Re.CDot] a).1.
Proof.
  induction a as [|c a IH]; simpl; [done|].
  destruct (negb (Ascii.eqb c NL) || false); [|done].
  destruct (span [Re.CDot] (a ++ String NL rest)), (span [Re.CDot] a).
  simpl in *. by rewrite IH.
Qed.

Lemma strip_prefix_before_newline k l rest :
  forall_chars not_newline k = true ->
  Re.strip_prefix k (l ++ String NL rest)
  = option_map (fun r => r ++ String NL rest) (Re.strip_prefix k l).
Proof.
  revert l. induction k as [|a k IH]; intros l Hk; simpl; [done|].
  simpl in Hk. apply andb_true_iff in Hk as [Ha Hk].
  destruct l as [|b l]; simpl.
  - unfold not_newline in Ha. destruct (Ascii.eqb a NL); done.
  - destruct (Ascii.eqb a b); [by apply IH|done].
Qed.

Lemma lex_marker_before_newline ks l rest :
  Forall (fun k => forall_chars not_newline k = true) ks ->
  lex_marker ks (l ++ String NL rest)
  = ((lex_marker ks l).1, (lex_marker ks l).2 ++ String NL rest).
Proof.
  induction 1 as [|k ks Hk _ IH]; simpl; [done|].
  rewrite strip_prefix_before_newline by done.
  destruct (Re.strip_prefix k l); simpl; done.
Qed.

Lemma keys_no_newline :
  Forall (fun k => forall_chars not_newline k = true) (keys mapping).
Proof. repeat constructor. Qed.

Lemma span_spaces_drop n t :
  (span [Re.CChar SP] (spaces n ++ t)).2 = (span [Re.CChar SP] t).2.
Proof.
  induction n as [|n IH]; simpl; [done|].
  destruct (span [Re.CChar SP] (spaces n ++ t)). simpl in *. done.
Qed.

Lemma count_char_app c a b :
  count_char c (a ++ b) = count_char c a + count_char c b.
Proof. induction a as [|d a IH]; simpl; [done|]. rewrite IH. lia. Qed.

End TransformerMore.

(** X1: the text handed to the templates never starts with a space and
    never holds a newline: the spaces after the marker are dropped and the
    text stops before the first newline. *)
Theorem text_is_trimmed_and_on_one_line (line : string) :
  exists tx,
    remaining_text line = Ok (Some tx)
    /\ forall_chars not_newline tx = true
    /\ (forall t, tx <> String SP t).
Proof.
  exists (text_of line). split; [apply remaining_text_eq|].
  split; [apply text_of_no_newline|].
  intros t Ht. unfold text_of in Ht.
  apply span_word_head in Ht as [t' Ht]. apply span_rest_head in Ht. done.
Qed.

(** X2: a marker is recognized exactly when the line begins with one of the
    keys of [mapping]; no space or other separator is needed after it, and
    the text is what follows. *)
Theorem marker_is_recognized_by_prefix (line m : string) :
  In m (keys mapping) ->
  recognized_marker line = Ok (Some m) <-> exists t, line = m ++ t.
Proof.
  intros Hm. rewrite recognized_marker_eq. split.
  - intros [= E]. unfold marker_of in E.
    destruct (lex_marker_sound (keys mapping) line) as [H|[_ H]].
    + rewrite H in E. simpl in E. subst m. simpl in Hm.
      exfalso. intuition discriminate.
    + rewrite E in H. by eexists.
  - intros [t ->]. unfold marker_of. rewrite lex_marker_key by done. done.
Qed.

Lemma marker_is_recognized_by_prefix_bfoo :
  recognized_marker "-bfoo" = Ok (Some "-bf")
  /\ add_tex_syntax "-bfoo" = Ok "\large\textbf{oo}\\".
Proof.
  split; [|vm_compute; reflexivity].
  apply (marker_is_recognized_by_prefix "-bfoo" "-bf").
  - simpl. tauto.
  - by exists "oo".
Defined.

(** X3: a key that comes after leading spaces is not a marker: the line is
    plain text, the key included, wrapped in the large-text fragment. *)
Theorem indented_marker_is_plain_text (n : nat) (m t : string) :
  In m (keys mapping) ->
  forall_chars not_newline t = true ->
  add_tex_syntax (spaces (S n) ++ m ++ t)
  = Ok (common.large_txt ++ (m ++ t) ++ brace.close ++ common.end_slash).
Proof.
  intros Hm Ht. rewrite add_tex_syntax_cases. cbv zeta.
  assert (exists m', m = String "-" m') as [m' ->].
  { simpl in Hm. destruct Hm as [<-|[<-|[<-|[<-|[<-|[]]]]]]; by eexists. }
  assert (forall_chars not_newline (String "-" m') = true) as Hk.
  { simpl in Hm. destruct Hm as [<-|[<-|[<-|[<-|[<-|[]]]]]]; done. }
  unfold marker_of, text_of. set (tail := String "-" m' ++ t).
  change (spaces (S n) ++ tail) with (String SP (spaces n ++ tail)).
  rewrite lex_marker_other_head by done. cbn [fst snd].
  change (String SP (spaces n ++ tail)) with (spaces (S n) ++ tail).
  rewrite span_spaces by (intros t0; subst tail; simpl; intros [=]).
  cbn [snd]. rewrite span_whole.
  2:{ erewrite forall_chars_ext; [|intros c; simpl; apply orb_false_r].
      change (forall_chars not_newline tail = true). subst tail.
      rewrite forall_chars_app, Hk, Ht. done. }
  done.
Qed.

Lemma indented_marker_is_plain_text_bf :
  add_tex_syntax "  -bf title" = Ok "\large\text{-bf title}\\".
Proof.
  apply (indented_marker_is_plain_text 1 "-bf" " title").
  - simpl. tauto.
  - vm_compute. reflexivity.
Defined.

(** X4: the output for a line depends on nothing from its first newline on:
    the newline that [readline] leaves at the end of a line has no effect. *)
Theorem newline_and_after_are_ignored (l rest : string) :
  add_tex_syntax (l ++ nl ++ rest) = add_tex_syntax l.
Proof.
  change (nl ++ rest) with (String NL rest).
  rewrite !add_tex_syntax_cases. cbv zeta. unfold marker_of, text_of.
  rewrite (lex_marker_before_newline _ _ _ keys_no_newline). cbn [fst snd].
  rewrite span_before_newline by done. cbn [snd].
  rewrite span_dot_newline. done.
Qed.

(** X5: the number of spaces between a marker and its text makes no
    difference, and neither do the spaces before a line that does not start
    with a dash. *)
Theorem spaces_before_text_are_dropped :
  (forall m n t,
     In m (keys mapping) ->
     add_tex_syntax (m ++ spaces n ++ t) = add_tex_syntax (m ++ t))
  /\ (forall n c t,
        c <> "-"%char ->
        add_tex_syntax (spaces n ++ String c t) = add_tex_syntax (String c t)).
Proof.
  split.
  - intros m n t Hm. rewrite !add_tex_syntax_cases. cbv zeta.
    unfold marker_of, text_of. rewrite !lex_marker_key by done. cbn [fst snd].
    rewrite span_spaces_drop. done.
  - intros n c t Hc. rewrite !add_tex_syntax_cases. cbv zeta.
    unfold marker_of, text_of.
    rewrite lex_marker_spaces by (by intros ? [= ->]).
    rewrite lex_marker_other_head by done. cbn [fst snd].
    rewrite span_spaces_drop. done.
Qed.

Lemma spaces_before_text_are_dropped_samples :
  add_tex_syntax "-bp    item" = add_tex_syntax "-bpitem"
  /\ add_tex_syntax "   hello" = add_tex_syntax "hello".
Proof.
  split.
  - apply (proj1 spaces_before_text_are_dropped "-bp" 4 "item").
    simpl. tauto.
  - apply (proj2 spaces_before_text_are_dropped 3 "h"%char "ello").
    discriminate.
Defined.

Lemma needs_2nd_close_brace_eqb m :
  bool_decide (m ∈ needs_2nd_close_brace) = String.eqb m "-und".
Proof.
  unfold needs_2nd_close_brace. destruct (String.eqb_spec m "-und") as [->|H].
  - apply bool_decide_eq_true_2. set_solver.
  - apply bool_decide_eq_false_2. set_solver.
Qed.

(** X6: every TeX group that the output opens is closed in the output: when
    the braces of the text are balanced in number, so are those of the
    output line (one closing brace for [-bp], [-bf] and unmarked text, two
    for [-und], none for the breaks). *)
Theorem output_braces_are_balanced (line tx out : string) :
  remaining_text line = Ok (Some tx) ->
  add_tex_syntax line = Ok out ->
  count_char "{" tx = count_char "}" tx ->
  count_char "{" out = count_char "}" out.
Proof.
  rewrite remaining_text_eq. intros [= <-].
  rewrite add_tex_syntax_cases. cbv zeta.
  rewrite needs_2nd_close_brace_eqb.
  destruct (marker_of_cases line) as [E|E].
  - rewrite E. cbn [String.eqb]. destruct (text_of line) as [|c t] eqn:Et.
    + by intros [= <-].
    + rewrite <- Et. intros [= <-] H.
      simpl. rewrite !count_char_app. simpl. lia.
  - simpl in E.
    destruct E as [E|[E|[E|[E|[E|[]]]]]]; rewrite <- E; simpl;
      intros [= <-] H; simpl; rewrite ?count_char_app; simpl; lia.
Qed.

Lemma output_braces_are_balanced_und :
  count_char "{" "\underline{\large\text{a {b} c}}"
  = count_char "}" "\underline{\large\text{a {b} c}}".
Proof.
  apply (output_braces_are_balanced "-und a {b} c" "a {b} c").
  - vm_compute. reflexivity.
  - vm_compute. reflexivity.
  - vm_compute. reflexivity.
Defined.

(** X7: an output line never holds a newline, so each input line gives
    exactly one line of the output file. *)
Theorem output_line_has_no_newline (line out : string) :
  add_tex_syntax line = Ok out -> forall_chars not_newline out = true.
Proof.
  intros H. destruct (add_tex_syntax_ok line) as (out' & Ho & Hn).
  rewrite Ho in H. by injection H as <-.
Qed.

Lemma output_line_has_no_newline_sample :
  forall_chars not_newline "\large\text{two}\\" = true.
Proof.
  apply (output_line_has_no_newline ("two" ++ nl ++ "lines")).
  vm_compute. reflexivity.
Defined.

(** ** Further properties of [process_files] *)

Section ConversionMore.

Lemma outs_unique lines outs1 outs2 :
  Forall2 (fun line out => add_tex_syntax line = Ok out) lines outs1 ->
  Forall2 (fun line out => add_tex_syntax line = Ok out) lines outs2 ->
  outs1 = outs2.
Proof.
  intros H1. revert outs2.
  induction H1 as [|l o ls os Ho _ IH]; intros outs2 H2;
    inversion H2 as [|l' o' ls' os' Ho' H2']; subst; [done|].
  rewrite Ho in Ho'. injection Ho' as <-. f_equal. by apply IH.
Qed.

Lemma join_app xs ys : join (xs ++ ys)%list = join xs ++ join ys.
Proof.
  induction xs as [|x xs IH]; simpl; [done|].
  rewrite IH, append_assoc. done.
Qed.

Lemma file_lines_nil s : file_lines s = [] -> s = "".
Proof.
  destruct s as [|c s]; simpl; [done|].
  destruct (Ascii.eqb c NL); [done|]. destruct (file_lines s); done.
Qed.

Lemma file_lines_app a b :
  file_lines ((a ++ nl) ++ b) = (file_lines (a ++ nl) ++ file_lines b)%list.
Proof.
  induction a as [|c a IH]; simpl; [done|].
  destruct (Ascii.eqb c NL); simpl; [by rewrite IH|].
  rewrite IH. destruct (file_lines (a ++ nl)) as [|l ls] eqn:E; [|done].
  apply file_lines_nil in E. by destruct a.
Qed.

End ConversionMore.

(** X8: [process_files] reads its input to the end and only appends to the
    text already written, and what it appends does not depend on that text. *)
Theorem process_files_only_appends (infile outfile : string) :
  exists added,
    process_files infile "" = Ok ("", added)
    /\ process_files infile outfile = Ok ("", outfile ++ added).
Proof.
  destruct (process_files_spec infile "") as (outs1 & H1 & R1).
  destruct (process_files_spec infile outfile) as (outs2 & H2 & R2).
  rewrite (outs_unique _ _ _ H2 H1) in R2.
  eexists. split; [exact R1|exact R2].
Qed.

(** X9: converting a text that continues after a complete line is converting
    the part up to that line and then the rest, on the output so far. *)
Theorem process_files_of_concatenation (a b outfile : string) :
  exists middle,
    process_files (a ++ nl) outfile = Ok ("", middle)
    /\ process_files ((a ++ nl) ++ b) outfile = process_files b middle.
Proof.
  destruct (process_files_spec (a ++ nl) outfile) as (outs1 & H1 & R1).
  destruct (process_files_spec ((a ++ nl) ++ b) outfile) as (outs & H & R).
  eexists. split; [exact R1|].
  destruct (process_files_spec b
              (outfile ++ join (map (fun out => out ++ nl) outs1)))
    as (outs2 & H2 & R2).
  rewrite R, R2. rewrite file_lines_app in H.
  rewrite (outs_unique _ _ _ H (Forall2_app H1 H2)).
  rewrite map_app, join_app, append_assoc. done.
Qed.

(** ** Further properties of the driver *)

(** X10: [show_error] knows two kinds of message; for any other kind it
    raises [KeyError], and it never changes anything. *)
Theorem show_error_unknown_kind (message_type : string) (w : world) :
  message_type <> "usage" ->
  message_type <> "file_nonexistent" ->
  show_error message_type w = (Raise KeyError, w).
Proof.
  intros H1 H2. unfold show_error, io_bind, get_infile_name, lift, getitem.
  cbn [Re.assoc].
  apply String.eqb_neq in H1. apply String.eqb_neq in H2.
  rewrite H1, H2. done.
Qed.

Lemma show_error_unknown_kind_sample :
  show_error "file_unreadable" (World ∅ [] [] "")
  = (Raise KeyError, World ∅ [] [] "").
Proof.
  apply (show_error_unknown_kind "file_unreadable"); discriminate.
Defined.


(** X11: with any number of arguments other than one, [main] prints the
    usage message and exits with status 1; no file is read or written and
    nothing is asked. *)
Theorem wrong_argument_count_exits_1 (argv : list string) (w : world) :
  length argv <> 2 ->
  main argv w
  = (Raise (SystemExit (inl 1%Z)),
     World (fs w) (stdin w) (stdout w ++ [(usage ++ nl)%string])%list
       (infile_name w)).
Proof.
  intros H. apply Nat.eqb_neq in H.
  unfold main, io_bind. rewrite H. reflexivity.
Qed.

Lemma wrong_argument_count_exits_1_three :
  (main ["texit.py"; "a.txt"; "b.txt"] (World ∅ [] [] "")).1
  = Raise (SystemExit (inl 1%Z)).
Proof.
  rewrite (wrong_argument_count_exits_1 ["texit.py"; "a.txt"; "b.txt"]).
  - reflexivity.
  - simpl. lia.
Defined.

(** X12: when the input file does not exist, [main] prints that the path
    does not exist, an empty line and the usage message, and exits with
    status 2; no file is written and nothing is asked. *)
Theorem missing_input_exits_2 (prog path : string) (w : world) :
  fs w !! path = None ->
  main [prog; path] w
  = (Raise (SystemExit (inl 2%Z)),
     World (fs w) (stdin w)
       (((stdout w ++ [(("`" ++ path ++ "` does not exist.") ++ nl)%string])
         ++ [("" ++ nl)%string]) ++ [(usage ++ nl)%string])%list
       path).
Proof.
  intros H. unfold main, io_bind, set_infile_name, get_infile_name,
    path_exists.
  cbn [length Nat.eqb negb nth fs stdin stdout infile_name].
  rewrite H, bool_decide_eq_false_2 by apply is_Some_None.
  reflexivity.
Qed.

Lemma missing_input_exits_2_sample :
  (main ["texit.py"; "gone.txt"] (World ∅ [] [] "")).1
  = Raise (SystemExit (inl 2%Z)).
Proof.
  rewrite (missing_input_exits_2 "texit.py" "gone.txt").
  - reflexivity.
  - reflexivity.
Defined.

(** X13: for an input path without any dot the path pattern does not match,
    and [main] stops with [AttributeError] before it asks or writes
    anything. *)
Theorem path_without_dot_stops_main (prog path content : string) (w : world) :
  fs w !! path = Some content ->
  forall_chars (fun c => negb (Ascii.eqb c ".")) path = true ->
  main [prog; path] w
  = (Raise AttributeError, World (fs w) (stdin w) (stdout w) path).
Proof.
  intros Hin Hp. apply (main_stops_early _ _ content); [done|].
  by apply no_dot_no_match.
Qed.

Lemma path_without_dot_stops_main_readme :
  (main ["texit.py"; "/docs/README"]
     (World {[ "/docs/README" := "hello" ]} [] [] "")).1
  = Raise AttributeError.
Proof.
  rewrite (path_without_dot_stops_main "texit.py" "/docs/README" "hello").
  - reflexivity.
  - vm_compute. reflexivity.
  - vm_compute. reflexivity.
Defined.

(** X14: whatever the arguments and however the run ends, [main] changes no
    file other than the derived output file; in particular the input file is
    never changed. *)
Theorem main_changes_only_the_output_file (argv : list string) (w : world) :
  (forall p,
     (forall name out,
        derived_outfile (nth 1 argv "") = Ok (name, out) -> p <> out) ->
     fs (main argv w).2 !! p = fs w !! p)
  /\ fs (main argv w).2 !! nth 1 argv "" = fs w !! nth 1 argv "".
Proof.
  assert (forall p,
            (forall name out,
               derived_outfile (nth 1 argv "") = Ok (name, out) -> p <> out) ->
            fs (main argv w).2 !! p = fs w !! p) as Hframe.
  { intros p Hp.
    destruct (Nat.eqb_spec (length argv) 2) as [El|El].
    - destruct argv as [|prog [|path [|x argv]]]; try discriminate.
      simpl in Hp.
      destruct (fs w !! path) as [content|] eqn:Ein.
      + destruct (derived_outfile path) as [[name out]|e] eqn:Ed.
        * destruct (process_files_spec (universal_newlines content)
                      ("$$" ++ nl)) as (outs & _ & Hrun).
          rewrite (main_run _ _ _ _ _ _ _ Ein Ed Hrun). cbv zeta.
          specialize (Hp _ _ eq_refl).
          destruct (fs w !! out);
            [destruct (overwrite_loop _ _) as [[[b|e] ?] ?]|];
            cbn [snd fs]; rewrite ?lookup_insert_ne by done; done.
        * rewrite (main_stops_early _ _ _ _ _ Ein Ed). done.
      + unfold main, io_bind, set_infile_name, get_infile_name, path_exists.
        cbn [length Nat.eqb negb nth fs stdin stdout infile_name].
        rewrite Ein, bool_decide_eq_false_2 by apply is_Some_None.
        reflexivity.
    - apply Nat.eqb_neq in El. unfold main, io_bind. rewrite El.
      reflexivity. }
  split; [exact Hframe|].
  apply Hframe. intros name out Hd Heq.
  by apply (derived_outfile_differs _ _ _ Hd).
Qed.

Lemma main_changes_only_the_output_file_sample :
  let w := World {[ "/a/notes.txt" := "hello"; "/a/other.txt" := "kept" ]}
             [] [] "" in
  fs (main ["texit.py"; "/a/notes.txt"] w).2 !! "/a/other.txt" = Some "kept"
  /\ fs (main ["texit.py"; "/a/notes.txt"] w).2 !! "/a/notes.txt"
     = Some "hello".
Proof.
  intros w.
  destruct (main_changes_only_the_output_file ["texit.py"; "/a/notes.txt"] w)
    as [H1 H2].
  split.
  - rewrite H1; [reflexivity|]. cbn [nth].
    intros name out Hd. vm_compute in Hd. injection Hd as <- <-. discriminate.
  - cbn [nth] in H2. rewrite H2. reflexivity.
Defined.

(** X15: when the output file exists and the answer is [n], [N] or empty,
    [main] ends with the goodbye message after one question; every file is
    as before, the old output included, and later answers stay unread. *)
Theorem declined_overwrite_changes_nothing
    (prog path content name out old answer : string)
    (pending : list string) (w : world) :
  fs w !! path = Some content ->
  derived_outfile path = Ok (name, out) ->
  fs w !! out = Some old ->
  stdin w = answer :: pending ->
  In answer ["n"; "N"; ""] ->
  main [prog; path] w
  = (Raise (SystemExit (inr goodbye)),
     World (fs w) pending
       ((stdout w ++ [(exists_notice out ++ nl)%string])
        ++ [overwrite_prompt])%list path).
Proof.
  intros Hin Hd Hout Hs Ha.
  destruct (process_files_spec (universal_newlines content) ("$$" ++ nl))
    as (outs & _ & Hrun).
  rewrite (main_run _ _ _ _ _ _ _ Hin Hd Hrun). cbv zeta.
  rewrite Hout, Hs.
  simpl in Ha. destruct Ha as [<-|[<-|[<-|[]]]]; reflexivity.
Qed.

Lemma declined_overwrite_changes_nothing_sample :
  let w := World {[ "/a/notes.txt" := "hello";
                    "/a/notes_texit_out.txt" := "old" ]} ["N"; "y"] [] "" in
  fs (main ["texit.py"; "/a/notes.txt"] w).2 = fs w
  /\ stdin (main ["texit.py"; "/a/notes.txt"] w).2 = ["y"].
Proof.
  intros w.
  rewrite (declined_overwrite_changes_nothing "texit.py" "/a/notes.txt"
             "hello" "notes_texit_out.txt" "/a/notes_texit_out.txt" "old"
             "N" ["y"] w).
  - split; reflexivity.
  - vm_compute. reflexivity.
  - vm_compute. reflexivity.
  - vm_compute. reflexivity.
  - reflexivity.
  - simpl. tauto.
Defined.

(** X16: a run that finds no earlier output file asks nothing, prints only
    the summary with the input path, the output name and the output path,
    and adds the output file, which holds the conversion of the input as a
    text stream reads it; nothing else changes. *)
Theorem fresh_run_adds_one_file
    (prog path content name out : string) (w : world) :
  fs w !! path = Some content ->
  derived_outfile path = Ok (name, out) ->
  fs w !! out = None ->
  exists files,
    process_files (universal_newlines content) ("$$" ++ nl) = Ok files
    /\ main [prog; path] w
       = (Ok tt,
          World (<[out := files.2 ++ "$$" ++ nl]> (fs w)) (stdin w)
            (stdout w ++ [(summary path name out ++ nl)%string])%list path).
Proof.
  intros Hin Hd Hout.
  destruct (process_files_spec (universal_newlines content) ("$$" ++ nl))
    as (outs & _ & Hrun).
  eexists. split; [exact Hrun|].
  rewrite (main_run _ _ _ _ _ _ _ Hin Hd Hrun). cbv zeta.
  rewrite Hout. done.
Qed.

Lemma fresh_run_adds_one_file_sample :
  exists files,
    process_files "hello" ("$$" ++ nl) = Ok files
    /\ main ["texit.py"; "/a/notes.txt"]
         (World {[ "/a/notes.txt" := "hello" ]} ["unread"] [] "")
       = (Ok tt,
          World (<["/a/notes_texit_out.txt" := files.2 ++ "$$" ++ nl]>
                   {[ "/a/notes.txt" := "hello" ]})
            ["unread"]
            [(summary "/a/notes.txt" "notes_texit_out.txt"
                "/a/notes_texit_out.txt" ++ nl)%string]
            "/a/notes.txt").
Proof.
  destruct (fresh_run_adds_one_file "texit.py" "/a/notes.txt" "hello"
              "notes_texit_out.txt" "/a/notes_texit_out.txt"
              (World {[ "/a/notes.txt" := "hello" ]} ["unread"] [] ""))
    as (files & Hf & Hm).
  - vm_compute. reflexivity.
  - vm_compute. reflexivity.
  - vm_compute. reflexivity.
  - exists files. split; [exact Hf|]. rewrite Hm. reflexivity.
Defined.

(** X17: when the output file exists and the answer is [y] or [Y], [main]
    asks once, replaces the old output by the conversion of the input as a
    text stream reads it, whatever the old output held, and prints the
    notice, the question, the success message and the summary; later answers
    stay unread. *)
Theorem accepted_overwrite_replaces_the_output
    (prog path content name out old answer : string)
    (pending : list string) (w : world) :
  fs w !! path = Some content ->
  derived_outfile path = Ok (name, out) ->
  fs w !! out = Some old ->
  stdin w = answer :: pending ->
  In answer ["y"; "Y"] ->
  exists files,
    process_files (universal_newlines content) ("$$" ++ nl) = Ok files
    /\ main [prog; path] w
       = (Ok tt,
          World (<[out := files.2 ++ "$$" ++ nl]> (fs w)) pending
            ((((stdout w ++ [(exists_notice out ++ nl)%string])
               ++ [overwrite_prompt])
              ++ [("Overwrite successful!" ++ nl)%string])
             ++ [(summary path name out ++ nl)%string])%list path).
Proof.
  intros Hin Hd Hout Hs Ha.
  destruct (process_files_spec (universal_newlines content) ("$$" ++ nl))
    as (outs & _ & Hrun).
  eexists. split; [exact Hrun|].
  rewrite (main_run _ _ _ _ _ _ _ Hin Hd Hrun). cbv zeta.
  rewrite Hout, Hs.
  simpl in Ha. destruct Ha as [<-|[<-|[]]]; reflexivity.
Qed.

Lemma accepted_overwrite_replaces_the_output_sample :
  let w := World {[ "/a/notes.txt" := "hello";
                    "/a/notes_texit_out.txt" := "old" ]} ["Y"; "n"] [] "" in
  exists files,
    process_files "hello" ("$$" ++ nl) = Ok files
    /\ fs (main ["texit.py"; "/a/notes.txt"] w).2 !! "/a/notes_texit_out.txt"
       = Some (files.2 ++ "$$" ++ nl)
    /\ stdin (main ["texit.py"; "/a/notes.txt"] w).2 = ["n"].
Proof.
  intros w.
  destruct (accepted_overwrite_replaces_the_output "texit.py" "/a/notes.txt"
              "hello" "notes_texit_out.txt" "/a/notes_texit_out.txt" "old"
              "Y" ["n"] w) as (files & Hf & Hm).
  - vm_compute. reflexivity.
  - vm_compute. reflexivity.
  - vm_compute. reflexivity.
  - reflexivity.
  - simpl. tauto.
  - exists files. split; [exact Hf|]. rewrite Hm. split; [|reflexivity].
    cbn [snd fs]. apply lookup_insert_eq.
Defined.

(** X18: every answer other than [y], [Y], [n], [N] and the empty one costs
    one hint and one more question and changes nothing else; when only such
    answers are left, the question ends with [EOFError]. *)
Theorem refused_answers_are_asked_again
    (refused pending out : list string) :
  Forall (fun answer => ~ In answer [""; "n"; "N"; "y"; "Y"]) refused ->
  let shown :=
    (out ++ concat (map (fun _ => [overwrite_prompt;
                                   (answer_hint ++ nl)%string])
                      refused))%list in
  overwrite_loop (refused ++ pending) out = overwrite_loop pending shown
  /\ overwrite_loop refused out
     = (Raise EOFError, [], (shown ++ [overwrite_prompt])%list).
Proof.
  intros H. revert out. induction H as [|a refused Ha _ IH]; intros out.
  - cbn [map concat app]. rewrite app_nil_r. done.
  - cbv zeta in IH. cbv zeta. cbn [map concat app].
    rewrite !overwrite_loop_again by done.
    change "Enter a 'y' for yes, or 'n' for no." with answer_hint.
    destruct (IH (out ++ [overwrite_prompt; (answer_hint ++ nl)%string])%list)
      as [IH1 IH2].
    rewrite IH1, IH2, <- !app_assoc. done.
Qed.

Lemma refused_answers_are_asked_again_sample :
  overwrite_loop ["maybe"; "yes"; "y"] []
  = overwrite_loop ["y"]
      [overwrite_prompt; (answer_hint ++ nl)%string;
       overwrite_prompt; (answer_hint ++ nl)%string].
Proof.
  apply (refused_answers_are_asked_again ["maybe"; "yes"] ["y"] []).
  repeat constructor; simpl; intuition discriminate.
Defined.

(** X19: whenever an output path is derived, the input path is a prefix
    without newline, a name made of word characters, dashes and dots, and an
    extension made of a dot and word characters, with at most one newline
    after it; the output name is that name followed by [_texit_out.txt], and
    the output path is the prefix followed by the output name. *)
Theorem derived_outfile_lies_beside_the_input (path name out : string) :
  derived_outfile path = Ok (name, out) ->
  exists o n e tail,
    path = o ++ n ++ "." ++ e ++ tail
    /\ (tail = "" \/ tail = nl)
    /\ forall_chars not_newline o = true
    /\ forall_chars (Re.cs_mem name_chars) n = true
    /\ forall_chars is_word e = true
    /\ name = n ++ "_texit_out.txt"
    /\ out = o ++ name.
Proof.
  unfold derived_outfile, Re.re_match. rewrite infile_pattern_compiled.
  cbn [rbind]. destruct (Re.match_tree path_pattern path) as [mt|] eqn:Em;
    [|done].
  destruct (path_match_parts _ _ Em)
    as (o & n & e & tail & Hp & Ht & Ho & Hn & He & H1 & H2 & Hg).
  unfold Re.group. rewrite Hg. simpl. rewrite H1, H2. simpl.
  intros [= <- <-]. by exists o, n, e, tail.
Qed.

Lemma derived_outfile_lies_beside_the_input_sample :
  exists o n e tail,
    "/a/my notes.v2.txt" = o ++ n ++ "." ++ e ++ tail
    /\ (tail = "" \/ tail = nl)
    /\ forall_chars not_newline o = true
    /\ forall_chars (Re.cs_mem name_chars) n = true
    /\ forall_chars is_word e = true
    /\ "notes.v2_texit_out.txt" = n ++ "_texit_out.txt"
    /\ "/a/my notes.v2_texit_out.txt" = o ++ "notes.v2_texit_out.txt".
Proof.
  apply (derived_outfile_lies_beside_the_input "/a/my notes.v2.txt").
  vm_compute. reflexivity.
Defined.
